(** * raytrace.hh: a shallow embedding of the raytracer module

    The module is written against [gmath::Vector<scalar_type, DIMENSION>],
    a template over its scalar type, which raytrace.hh instantiates at
    [double].  The embedding keeps that parameter: every function is
    defined once over a [Scalar] interface, and the structural properties
    are proved for every scalar type.  The instance [float_scalar] is
    IEEE 754 binary64 (the kernel's primitive floats), which is what the
    compiled program computes with; what depends on the arithmetic is
    proved or evaluated there.

    [assert] is embedded as an explicit abort: a function whose source
    contains an assertion returns [checked A], and a failed assertion is
    [Aborted]. *)

From Stdlib Require Import ZArith List String Ascii Bool Lia.
From Stdlib Require Import Floats DecimalString.
From stdpp Require Import base list.

Set Default Proof Using "Type".

(** ** Scalars *)

Class Scalar (T : Type) : Type := {
  of_Z  : Z -> T;          (* conversion from [int], and integer literals *)
  half  : T;               (* the literal 0.5 *)
  sadd  : T -> T -> T;
  ssub  : T -> T -> T;
  smul  : T -> T -> T;
  sdiv  : T -> T -> T;
  sopp  : T -> T;
  ssqrt : T -> T;          (* sqrt of <cmath> *)
  sltb  : T -> T -> bool;
  sleb  : T -> T -> bool;
  seqb  : T -> T -> bool;
  sround : T -> Z          (* static_cast<int>(round(x)) *)
}.

Declare Scope scalar_scope.
Delimit Scope scalar_scope with S.
Infix "+" := sadd : scalar_scope.
Infix "-" := ssub : scalar_scope.
Infix "*" := smul : scalar_scope.
Infix "/" := sdiv : scalar_scope.
Notation "- x" := (sopp x) : scalar_scope.
Infix "<?" := sltb : scalar_scope.
Infix "<=?" := sleb : scalar_scope.
Infix "=?" := seqb : scalar_scope.

(** *** binary64 *)

Module Binary64.

(** [int] to [double]: every [int] is representable, the conversion is
    exact; [binary_normalize] rounds to nearest otherwise. *)
Definition of_Z (z : Z) : float :=
  SF2Prim (binary_normalize prec emax z 0 false).

(** [round] of <cmath> rounds half-way cases away from zero.  For a
    finite [m * 2^e] with [e < 0], [m / 2^(-e-1)] is the floor of twice
    the magnitude.  The cast to [int] of a value that is not finite is
    undefined in C++; the embedding gives 0, and [discretize] never
    reaches it (its assertion comes first). *)
Definition round (x : float) : Z :=
  match Prim2SF x with
  | S754_finite s m e =>
      let a := if (0 <=? e)%Z then (Z.pos m * 2 ^ e)%Z
               else ((Z.pos m / 2 ^ (- e - 1) + 1) / 2)%Z in
      if s then (- a)%Z else a
  | _ => 0%Z
  end.

End Binary64.

#[export] Instance float_scalar : Scalar float := {
  of_Z := Binary64.of_Z;
  half := 0.5%float;
  sadd := PrimFloat.add;
  ssub := PrimFloat.sub;
  smul := PrimFloat.mul;
  sdiv := PrimFloat.div;
  sopp := PrimFloat.opp;
  ssqrt := PrimFloat.sqrt;
  sltb := PrimFloat.ltb;
  sleb := PrimFloat.leb;
  seqb := PrimFloat.eqb;
  sround := Binary64.round
}.

(** ** Assertions *)

Inductive checked (A : Type) : Type :=
| Done (a : A)
| Aborted.
Arguments Done {A} a.
Arguments Aborted {A}.

Definition bind {A B : Type} (m : checked A) (k : A -> checked B) : checked B :=
  match m with
  | Done a => k a
  | Aborted => Aborted
  end.

Definition assert (b : bool) : checked unit :=
  if b then Done tt else Aborted.

Notation "x <- m ;; k" := (bind m (fun x => k))
  (at level 100, m at next level, right associativity).
Notation "'assert!' b ;; k" := (bind (assert b) (fun _ => k))
  (at level 100, b at next level, right associativity).

(** [for_each xs body s] is a range-based [for] (or a counting [for] over
    the list of its indices) whose body updates [s] and may abort. *)
Fixpoint for_each {A S : Type} (xs : list A) (body : A -> S -> checked S)
    (s : S) : checked S :=
  match xs with
  | [] => Done s
  | x :: xs' => s' <- body x s ;; for_each xs' body s'
  end.

(** [for (int y = n - 1; y >= 0; --y)]. *)
Fixpoint for_down {S : Type} (n : nat) (body : Z -> S -> checked S)
    (s : S) : checked S :=
  match n with
  | O => Done s
  | S k => s' <- body (Z.of_nat k) s ;; for_down k body s'
  end.

Section Raytrace.

Context {T : Type} `{Scalar T}.
Local Open Scope scalar_scope.

(** ** gmath vectors *)

Record Vector3 : Type := vector3 { v3_0 : T; v3_1 : T; v3_2 : T }.
Record Vector4 : Type := vector4 { v4_0 : T; v4_1 : T; v4_2 : T; v4_3 : T }.

Definition Color : Type := Vector3.

Definition vector4_point (x y z : T) : Vector4 := vector4 x y z (of_Z 1).
Definition vector4_translation (x y z : T) : Vector4 := vector4 x y z (of_Z 0).

(** Modelled from the spec: gmath.hh is not part of the sources.  The spec
    assumes of it "dot product, subtraction, scalar scale, magnitude, and
    homogeneous-coordinate tagging", a point having "fourth component
    fixed at 1" and a direction "fourth component fixed at 0".  The
    operators act on all four components. *)
Definition vadd (a b : Vector4) : Vector4 :=
  vector4 (v4_0 a + v4_0 b) (v4_1 a + v4_1 b) (v4_2 a + v4_2 b) (v4_3 a + v4_3 b).
Definition vsub (a b : Vector4) : Vector4 :=
  vector4 (v4_0 a - v4_0 b) (v4_1 a - v4_1 b) (v4_2 a - v4_2 b) (v4_3 a - v4_3 b).
Definition vscale (a : Vector4) (k : T) : Vector4 :=
  vector4 (v4_0 a * k) (v4_1 a * k) (v4_2 a * k) (v4_3 a * k).
Definition vdiv (a : Vector4) (k : T) : Vector4 :=
  vector4 (v4_0 a / k) (v4_1 a / k) (v4_2 a / k) (v4_3 a / k).
Definition vneg (a : Vector4) : Vector4 :=
  vector4 (- v4_0 a) (- v4_1 a) (- v4_2 a) (- v4_3 a).
Definition dot (a b : Vector4) : T :=
  v4_0 a * v4_0 b + v4_1 a * v4_1 b + v4_2 a * v4_2 b + v4_3 a * v4_3 b.
Definition magnitude (a : Vector4) : T := ssqrt (dot a a).
Definition is_homogeneous_point (a : Vector4) : bool := v4_3 a =? of_Z 1.
Definition is_homogeneous_translation (a : Vector4) : bool := v4_3 a =? of_Z 0.

(** Modelled from the spec: the same library on colours (3-vectors). *)
Definition cadd (a b : Color) : Color :=
  vector3 (v3_0 a + v3_0 b) (v3_1 a + v3_1 b) (v3_2 a + v3_2 b).
Definition cshift (a : Color) (k : T) : Color :=
  vector3 (v3_0 a + k) (v3_1 a + k) (v3_2 a + k).

(** ** Colours *)

Definition is_color_intensity (x : T) : bool :=
  (of_Z 0 <=? x) && (x <=? of_Z 1).

Definition is_color (c : Color) : bool :=
  is_color_intensity (v3_0 c) &&
  is_color_intensity (v3_1 c) &&
  is_color_intensity (v3_2 c).

(** [hex] is a [uint_fast32_t]: callers pass [0 <= hex]. *)
Definition web_color (hex : Z) : checked Color :=
  assert! (hex <=? 0xFFFFFF)%Z ;;
  let color := vector3 (of_Z (Z.shiftr hex 16) / of_Z 255)
                       (of_Z (Z.land (Z.shiftr hex 8) 0xFF) / of_Z 255)
                       (of_Z (Z.land hex 0xFF) / of_Z 255) in
  assert! is_color color ;;
  Done color.

(** ** Intersection *)

Record Intersection : Type := mkIntersection {
  Intersection_point : Vector4;
  Intersection_normal : Vector4;
  Intersection_t : T
}.

(** The constructor, with its three assertions. *)
Definition new_Intersection (point normal : Vector4) (t : T)
    : checked Intersection :=
  assert! is_homogeneous_point point ;;
  assert! is_homogeneous_translation normal ;;
  assert! (of_Z 0 <=? t) ;;
  Done (mkIntersection point normal t).

(** ** Scene objects *)

Record SceneSphere : Type := mkSceneSphere {
  _diffuse_color : Color;
  _specular_color : Color;
  _center : Vector4;
  _radius : T
}.

Definition new_SceneSphere (diffuse_color specular_color : Color)
    (center : Vector4) (radius : T) : checked SceneSphere :=
  assert! is_color diffuse_color ;;
  assert! is_color specular_color ;;
  assert! is_homogeneous_point center ;;
  assert! (of_Z 0 <? radius) ;;
  Done (mkSceneSphere diffuse_color specular_color center radius).

(** The locals [discriminant], [t0] and [t1] of [SceneSphere::intersect]. *)
Definition SceneSphere_roots (s : SceneSphere) (ray_origin ray_direction : Vector4)
    : T * T * T :=
  let a := dot ray_direction ray_direction in
  let b := dot ray_direction (vsub ray_origin (_center s)) * of_Z 2 in
  let c := dot (vsub ray_origin (_center s)) (vsub ray_origin (_center s))
           - _radius s * _radius s in
  let discriminant := b * b - of_Z 4 * a * c in
  let t0 := (- b + ssqrt discriminant) / (of_Z 2 * a) in
  let t1 := (- b - ssqrt discriminant) / (of_Z 2 * a) in
  (discriminant, t0, t1).

Definition SceneSphere_intersect (s : SceneSphere)
    (ray_origin ray_direction : Vector4) : checked (option Intersection) :=
  let '(discriminant, t0, t1) := SceneSphere_roots s ray_origin ray_direction in
  if discriminant <? of_Z 0 then Done None
  else
    let time := if t0 <? t1 then t0 else t1 in
    let hit_point := vadd ray_origin (vscale ray_direction time) in
    let hit_normal := vscale (vsub hit_point (_center s)) (of_Z 2) in
    i <- new_Intersection hit_point hit_normal time ;;
    Done (Some i).

(** [SceneObject] is abstract; [SceneSphere] is its only subclass. *)
Inductive SceneObject : Type :=
| Sphere (s : SceneSphere).

Definition diffuse_color (o : SceneObject) : Color :=
  match o with Sphere s => _diffuse_color s end.
Definition specular_color (o : SceneObject) : Color :=
  match o with Sphere s => _specular_color s end.
Definition intersect (o : SceneObject) : Vector4 -> Vector4 -> checked (option Intersection) :=
  match o with Sphere s => SceneSphere_intersect s end.

(** ** Lights and camera *)

Record Light : Type := mkLight {
  Light_color : Color;
  Light_intensity : T
}.

Definition new_Light (color : Color) (intensity : T) : checked Light :=
  assert! is_color color ;;
  assert! (of_Z 0 <? intensity) ;;
  Done (mkLight color intensity).

Record PointLight : Type := mkPointLight {
  PointLight_light : Light;
  PointLight_location : Vector4
}.

Definition new_PointLight (color : Color) (intensity : T) (location : Vector4)
    : checked PointLight :=
  base <- new_Light color intensity ;;
  assert! is_homogeneous_point location ;;
  Done (mkPointLight base location).

Record Camera : Type := mkCamera {
  Camera_location : Vector4;
  Camera_gaze : Vector4;
  Camera_up : Vector4;
  Camera_l : T;
  Camera_t : T;
  Camera_r : T;
  Camera_b : T;
  Camera_d : T
}.

Definition new_Camera (location gaze up : Vector4) (l t r b d : T)
    : checked Camera :=
  assert! is_homogeneous_point location ;;
  assert! is_homogeneous_translation gaze ;;
  assert! is_homogeneous_translation up ;;
  assert! ((l <? of_Z 0) && (of_Z 0 <? r)) ;;
  assert! ((b <? of_Z 0) && (of_Z 0 <? t)) ;;
  assert! (of_Z 0 <? d) ;;
  Done (mkCamera location gaze up l t r b d).

(** ** Image *)

Record Image : Type := mkImage { _pixels : list (list Color) }.

Definition new_Image (width height : Z) (fill : Color) : checked Image :=
  assert! (0 <? width)%Z ;;
  assert! (0 <? height)%Z ;;
  Done (mkImage (replicate (Z.to_nat height) (replicate (Z.to_nat width) fill))).

(** [_pixels[0].size()]; the constructor guarantees that row 0 exists. *)
Definition Image_width (this : Image) : Z :=
  match _pixels this with
  | [] => 0%Z
  | row :: _ => Z.of_nat (length row)
  end.
Definition Image_height (this : Image) : Z := Z.of_nat (length (_pixels this)).

Definition is_x_coordinate (this : Image) (x : Z) : bool :=
  (0 <=? x)%Z && (x <? Image_width this)%Z.
Definition is_y_coordinate (this : Image) (y : Z) : bool :=
  (0 <=? y)%Z && (y <? Image_height this)%Z.
Definition is_coordinate (this : Image) (x y : Z) : bool :=
  is_x_coordinate this x && is_y_coordinate this y.

(** [_pixels[y][x]]; an index outside the vectors is undefined behaviour,
    embedded as an abort. *)
Definition Image_pixel (this : Image) (x y : Z) : checked Color :=
  assert! is_coordinate this x y ;;
  match _pixels this !! Z.to_nat y with
  | Some row =>
      match row !! Z.to_nat x with
      | Some c => Done c
      | None => Aborted
      end
  | None => Aborted
  end.

Definition Image_set_pixel (this : Image) (x y : Z) (color : Color)
    : checked Image :=
  assert! is_coordinate this x y ;;
  assert! is_color color ;;
  match _pixels this !! Z.to_nat y with
  | Some row =>
      if (Z.to_nat x <? length row)%nat
      then Done (mkImage (<[Z.to_nat y := <[Z.to_nat x := color]> row]> (_pixels this)))
      else Aborted
  | None => Aborted
  end.

Definition Image_discretize (intensity : T) : checked Z :=
  assert! is_color_intensity intensity ;;
  let x := sround (intensity * of_Z 255) in
  Done (if (x <? 0)%Z then 0%Z else if (255 <? x)%Z then 255%Z else x).

(** *** Output streams

    [std::ofstream] belongs to the C++ library; what [write_ppm] needs of
    it is embedded as follows.  A file can be opened for writing or not,
    and accepts [f_room] more bytes before the device reports an error.
    Opening truncates.  A stream that has failed ignores what is written
    to it afterwards, so it is still good at the end exactly when every
    write went through. *)
Record file : Type := mkFile {
  f_writable : bool;
  f_room : nat;
  f_content : string
}.

Definition FileSystem : Type := string -> file.

Record ofstream : Type := mkStream {
  os_out : string;
  os_room : nat;
  os_good : bool
}.

Definition open (fs : FileSystem) (path : string) : ofstream :=
  mkStream EmptyString (f_room (fs path)) (f_writable (fs path)).

Definition put (s : string) (f : ofstream) : ofstream :=
  if os_good f && (String.length s <=? os_room f)%nat
  then mkStream (os_out f ++ s) (os_room f - String.length s) true
  else mkStream (os_out f) (os_room f) false.

Definition close (fs : FileSystem) (path : string) (f : ofstream) : FileSystem :=
  fun p => if String.eqb p path
           then mkFile (f_writable (fs path)) (os_room f) (os_out f)
           else fs p.

(** [operator<<] on an [int]. *)
Definition dec (z : Z) : string := NilZero.string_of_int (Z.to_int z).

Definition endl : string := String (ascii_of_nat 10) EmptyString.

(** The body of the inner loop of [write_ppm], for one pixel. *)
Definition write_ppm_pixel (this : Image) (y x : Z) (f : ofstream)
    : checked ofstream :=
  c <- Image_pixel this x y ;;
  let f := if (0 <? x)%Z then put " " f else f in
  r <- Image_discretize (v3_0 c) ;;
  g <- Image_discretize (v3_1 c) ;;
  b <- Image_discretize (v3_2 c) ;;
  Done (put (dec b) (put " " (put (dec g) (put " " (put (dec r) f))))).

Definition write_ppm_row (this : Image) (y : Z) (f : ofstream)
    : checked ofstream :=
  f <- for_each (seqZ 0 (Image_width this)) (write_ppm_pixel this y) f ;;
  Done (put endl f).

(** [write_ppm] is a [const] member: the image it returns is [this]. *)
Definition Image_write_ppm (this : Image) (path : string) (fs : FileSystem)
    : checked (bool * Image * FileSystem) :=
  let f := open fs path in
  if negb (os_good f) then Done (false, this, fs)
  else
    let f := put endl (put "P3" f) in
    let f := put endl (put (dec (Image_height this))
               (put " " (put (dec (Image_width this)) f))) in
    let f := put endl (put "255" f) in
    f <- for_down (Z.to_nat (Image_height this)) (write_ppm_row this) f ;;
    let success := os_good f in
    Done (success, this, close fs path f).

(** ** Scene *)

Record Scene : Type := mkScene {
  _ambient_light : Light;
  _background_color : Color;
  _camera : Camera;
  _perspective : bool;
  _objects : list SceneObject;
  _point_lights : list PointLight
}.

Definition new_Scene (ambient_light : Light) (background_color : Color)
    (camera : Camera) (perspective : bool) : checked Scene :=
  assert! is_color background_color ;;
  Done (mkScene ambient_light background_color camera perspective [] []).

Definition add_object (this : Scene) (object : SceneObject) : Scene :=
  mkScene (_ambient_light this) (_background_color this) (_camera this)
          (_perspective this) (_objects this ++ [object]) (_point_lights this).

Definition add_point_light (this : Scene) (light : PointLight) : Scene :=
  mkScene (_ambient_light this) (_background_color this) (_camera this)
          (_perspective this) (_objects this) (_point_lights this ++ [light]).

(** The camera basis.  [compute_viewing_ray] declares [vec_u], [vec_v] and
    [vec_w] and reads them without assigning them; the pixel indices and
    the image size it reads are the variables of [render].  All of them
    are arguments here.  This is the reading most favourable to the
    source, which as written yields no ray; it serves to state what
    [render] and the ray computation fail to do even then, and nothing is
    claimed of the source on its strength. *)
Record Basis : Type := mkBasis {
  vec_u : Vector4;
  vec_v : Vector4;
  vec_w : Vector4
}.

Definition viewing_u (cam : Camera) (i width : Z) : T :=
  Camera_l cam + (Camera_r cam - Camera_l cam) * (of_Z i + half) / of_Z width.
Definition viewing_v (cam : Camera) (j height : Z) : T :=
  Camera_b cam + (Camera_t cam - Camera_b cam) * (of_Z j + half) / of_Z height.

(** Returns [(ray_origin, ray_direction)], the two reference arguments. *)
Definition compute_viewing_ray (this : Scene) (axes : Basis)
    (i j width height : Z) : Vector4 * Vector4 :=
  let u := viewing_u (_camera this) i width in
  let v := viewing_v (_camera this) j height in
  if _perspective this then
    let ray_direction :=
      vadd (vadd (vscale (vec_w axes) (- Camera_d (_camera this)))
                 (vscale (vec_u axes) u))
           (vscale (vec_v axes) v) in
    let ray_origin := vscale (Camera_location (_camera this)) (of_Z 1) in
    (ray_origin, ray_direction)
  else
    let ray_direction := vneg (vec_w axes) in
    let ray_origin :=
      vadd (vadd (Camera_location (_camera this)) (vscale (vec_u axes) u))
           (vscale (vec_v axes) v) in
    (ray_origin, ray_direction).

(** [std::max]. *)
Definition smax (a b : T) : T := if a <? b then b else a.

(** What one iteration of the loop over the point lights adds to
    [accumulated_light]: the local [current_point_light]. *)
Definition point_light_term (obj : SceneObject) (inter unit_normal : Vector4)
    (point_light : PointLight) : Color :=
  let light_displacement := vsub (PointLight_location point_light) inter in
  let unit_light_vector := vdiv light_displacement (magnitude light_displacement) in
  let max_light := smax (of_Z 0) (dot unit_normal unit_light_vector) in
  let point_light_intensity :=
    Light_intensity (PointLight_light point_light) / magnitude light_displacement in
  vector3 (max_light * v3_0 (diffuse_color obj) * point_light_intensity)
          (max_light * v3_1 (diffuse_color obj) * point_light_intensity)
          (max_light * v3_2 (diffuse_color obj) * point_light_intensity).

(** The source ends in [return ;] and declares [accumulated_light] a
    [double] to which it adds colours; the embedding accumulates a colour
    and returns it, the ambient intensity being added to every
    component.  It is used only to show what the function does not do
    (it never clamps). *)
Definition evaluate_shading (this : Scene) (obj : SceneObject)
    (inter normal : Vector4) : Color :=
  let unit_normal := vdiv normal (magnitude normal) in
  let accumulated_light :=
    fold_left (fun acc point_light =>
                 cadd acc (point_light_term obj inter unit_normal point_light))
              (_point_lights this)
              (vector3 (of_Z 0) (of_Z 0) (of_Z 0)) in
  cshift accumulated_light (Light_intensity (_ambient_light this)).

(** The body of the loop over [_objects] in [render], for pixel [(i, j)]:
    a hit leaves the image as it is ([set_pixel] is commented out in that
    branch), a miss writes the background colour. *)
Definition render_object (this : Scene) (axes : Basis) (width height j i : Z)
    (scene_obj : SceneObject) (image : Image) : checked Image :=
  let '(ray_origin, ray_direction) :=
    compute_viewing_ray this axes i j width height in
  hit_point <- intersect scene_obj ray_origin ray_direction ;;
  match hit_point with
  | Some _ => Done image
  | None => Image_set_pixel image i j (_background_color this)
  end.

Definition render (this : Scene) (axes : Basis) (width height : Z)
    : checked Image :=
  assert! (0 <? width)%Z ;;
  assert! (0 <? height)%Z ;;
  image <- new_Image width height (_background_color this) ;;
  for_each (seqZ 0 height)
    (fun j => for_each (seqZ 0 width)
       (fun i => for_each (_objects this)
          (render_object this axes width height j i)))
    image.

(** ** The specification's formulas

    Definitions written from the wording of the specification, to be
    compared with the functions above. *)

(** "Surface normal = (hit_point - center) normalized". *)
Definition normalized (a : Vector4) : Vector4 := vdiv a (magnitude a).

(** Section 4.3: [cos_theta * diffuse_color * point_light.color *
    attenuation], with [attenuation = intensity / distance^2]. *)
Definition point_light_contribution_spec (obj : SceneObject)
    (point normal_unit : Vector4) (point_light : PointLight) : Color :=
  let to_light := vsub (PointLight_location point_light) point in
  let distance := magnitude to_light in
  let light_unit := vdiv to_light distance in
  let cos_theta := smax (of_Z 0) (dot normal_unit light_unit) in
  let attenuation :=
    Light_intensity (PointLight_light point_light) / (distance * distance) in
  let k := Light_color (PointLight_light point_light) in
  vector3 (cos_theta * v3_0 (diffuse_color obj) * v3_0 k * attenuation)
          (cos_theta * v3_1 (diffuse_color obj) * v3_1 k * attenuation)
          (cos_theta * v3_2 (diffuse_color obj) * v3_2 k * attenuation).

(** Section 6: "round(intensity * 255) clamped to [0,255]". *)
Definition channel (intensity : T) : Z :=
  Z.max 0 (Z.min 255 (sround (intensity * of_Z 255))).

(** Section 6: an "R G B" triple, a row of triples separated by spaces,
    and the file: header, "width height", "255", then the rows from the
    top scanline (the last row in memory) to the bottom one. *)
Definition triple_text (c : Color) : string :=
  String.concat " " [dec (channel (v3_0 c)); dec (channel (v3_1 c)); dec (channel (v3_2 c))].

Definition row_text (row : list Color) : string :=
  (String.concat " " (map triple_text row) ++ endl)%string.

Definition ppm_text (img : Image) : string :=
  ("P3" ++ endl ++
   dec (Image_width img) ++ " " ++ dec (Image_height img) ++ endl ++
   "255" ++ endl ++
   String.concat "" (map row_text (rev (_pixels img))))%string.

(** The class invariant of [Image]: every row has [width()] pixels. *)
Definition Image_rect (img : Image) : bool :=
  forallb (fun row => (Z.of_nat (length row) =? Image_width img)%Z) (_pixels img).

(** Every pixel is a colour ([set_pixel] asserts it of what it stores). *)
Definition Image_colors (img : Image) : bool :=
  forallb (forallb is_color) (_pixels img).

(** The triples of a row after the first: each is preceded by a space. *)
Definition spaced_text (row : list Color) : string :=
  String.concat "" (map (fun c => (" " ++ triple_text c)%string) row).

Definition filled (width height : Z) (fill : Color) : Image :=
  mkImage (replicate (Z.to_nat height) (replicate (Z.to_nat width) fill)).

End Raytrace.

(** [wrote f f' text]: the writes that led from stream [f] to stream [f']
    carried [text].  The stream is good afterwards exactly when it was good
    before and the device had room for all of [text], and then [text] has
    been appended. *)
Definition wrote (f f' : ofstream) (text : string) : Prop :=
  os_good f' = os_good f && (String.length text <=? os_room f)%nat /\
  (os_good f' = true ->
   os_out f' = (os_out f ++ text)%string /\
   os_room f' = os_room f - String.length text).

(** ** Concrete scenes (binary64) *)

Module Demo.

Local Open Scope float_scope.

Definition black : @Color float := vector3 0 0 0.
Definition white : @Color float := vector3 1 1 1.
Definition red : @Color float := vector3 1 0 0.

Definition eye : @Vector4 float := vector4_point 0 0 0.
Definition forward : @Vector4 float := vector4_translation 0 0 (-1).
Definition backward : @Vector4 float := vector4_translation 0 0 1.

(** A unit sphere five units down the negative z axis. *)
Definition ball : @SceneSphere float :=
  mkSceneSphere white white (vector4_point 0 0 (-5)) 1.

(** A sphere of radius 2 around the eye. *)
Definition shell : @SceneSphere float :=
  mkSceneSphere white white (vector4_point 0 0 0) 2.

Definition camera : @Camera float :=
  mkCamera eye forward (vector4_translation 0 1 0) (-1) 1 1 (-1) 1.

Definition axes : @Basis float :=
  mkBasis (vector4_translation 1 0 0) (vector4_translation 0 1 0)
          (vector4_translation 0 0 1).

Definition ambient : @Light float := mkLight white 0.25.
Definition lamp : @PointLight float := mkPointLight (mkLight white 1) eye.
Definition red_lamp : @PointLight float :=
  mkPointLight (mkLight red 1) (vector4_point 0 0 (-2)).
Definition floodlight : @PointLight float :=
  mkPointLight (mkLight white 4) (vector4_point 0 0 (-3)).

Definition empty_scene : @Scene float :=
  mkScene ambient black camera true [] [].
Definition scene : @Scene float :=
  add_point_light (add_object empty_scene (Sphere ball)) lamp.
Definition bright_scene : @Scene float :=
  add_point_light (add_object empty_scene (Sphere ball)) floodlight.

(** Where the central ray meets [ball], and the normal there. *)
Definition hit : @Vector4 float := vector4_point 0 0 (-4).
Definition hit_normal : @Vector4 float := vector4_translation 0 0 2.

Definition picture : @Image float :=
  mkImage [[black; red]; [white; vector3 0.5 0.25 1]].

Definition disk (writable : bool) (room : nat) : FileSystem :=
  fun _ => mkFile writable room EmptyString.


End Demo.

(** The round trip of one byte through [web_color] and [discretize], in
    binary64: [b / 255.0] is an intensity, and rounding it times 255.0
    gives [b] back. *)
Definition byte_round_trip (b : Z) : bool :=
  let x : float := (of_Z b / of_Z 255)%S in
  is_color_intensity x && (sround (x * of_Z 255)%S =? b)%Z.

(** * Properties *)

(** ** Assertions and loops *)

Lemma bind_Done {A B : Type} (m : checked A) (k : A -> checked B) (b : B) :
  bind m k = Done b -> exists a, m = Done a /\ k a = Done b.
Proof. destruct m as [a|]; simpl; [eauto | discriminate]. Qed.

Lemma bind_assert_Done {B : Type} (c : bool) (k : unit -> checked B) (b : B) :
  bind (assert c) k = Done b -> c = true /\ k tt = Done b.
Proof. destruct c; simpl; [auto | discriminate]. Qed.

(** [run_inv H] peels the assertions and calls that [H : ... = Done _] went
    through, leaving the equation of the value returned. *)
Ltac run_inv H :=
  repeat first
    [ apply bind_assert_Done in H as [? H]
    | let a := fresh "a" in
      let Ha := fresh "H" a in
      apply bind_Done in H as (a & Ha & H) ].

Lemma forallb_Forall {A : Type} (f : A -> bool) (l : list A) :
  forallb f l = true <-> Forall (fun x => f x = true) l.
Proof.
  induction l as [|x l IH]; simpl.
  - split; [constructor | reflexivity].
  - rewrite andb_true_iff, IH. split.
    + intros [Hx Hl]. constructor; assumption.
    + intros Hxl. inversion Hxl; subst. split; assumption.
Qed.

(** A property kept by every iteration is kept by the loop. *)
Lemma for_each_invariant {A S : Type} (P : S -> Prop) (xs : list A)
    (body : A -> S -> checked S) :
  (forall x s s', body x s = Done s' -> P s -> P s') ->
  forall s s', for_each xs body s = Done s' -> P s -> P s'.
Proof.
  intros Hbody. induction xs as [|x xs IH]; simpl; intros s s' Hrun Hs.
  - injection Hrun as <-. exact Hs.
  - apply bind_Done in Hrun as (s1 & H1 & H2). eauto.
Qed.

(** A loop whose iterations leave the state alone returns it. *)
Lemma for_each_skip {A S : Type} (xs : list A) (body : A -> S -> checked S) (s : S) :
  (forall x, body x s = Done s) -> for_each xs body s = Done s.
Proof.
  intros Hbody. induction xs as [|x xs IH]; simpl; [reflexivity|].
  rewrite Hbody. simpl. exact IH.
Qed.

(** A loop whose iterations all return, returns. *)
Lemma for_each_Done {A S : Type} (xs : list A) (body : A -> S -> checked S) :
  (forall x s, In x xs -> exists s', body x s = Done s') ->
  forall s, exists s', for_each xs body s = Done s'.
Proof.
  induction xs as [|x xs IH]; intros Hbody s; simpl; [eauto|].
  destruct (Hbody x s) as [s1 H1]; [left; reflexivity|].
  rewrite H1. simpl. apply IH. intros y s2 Hy. apply Hbody. right. exact Hy.
Qed.

Lemma for_down_Done {S : Type} (n : nat) (body : Z -> S -> checked S) :
  (forall k s, (k < n)%nat -> exists s', body (Z.of_nat k) s = Done s') ->
  forall s, exists s', for_down n body s = Done s'.
Proof.
  induction n as [|k IH]; intros Hbody s; simpl; [eauto|].
  destruct (Hbody k s) as [s1 H1]; [lia|].
  rewrite H1. simpl. apply IH. intros j s2 Hj. apply Hbody. lia.
Qed.

(** ** Strings and streams *)

Lemma string_app_nil_r (s : string) : (s ++ "")%string = s.
Proof. induction s as [|a s IH]; simpl; [reflexivity | now rewrite IH]. Qed.

Lemma string_app_assoc (s1 s2 s3 : string) :
  ((s1 ++ s2) ++ s3)%string = (s1 ++ (s2 ++ s3))%string.
Proof. induction s1 as [|a s1 IH]; simpl; [reflexivity | now rewrite IH]. Qed.

Lemma string_length_app (s1 s2 : string) :
  String.length (s1 ++ s2) = String.length s1 + String.length s2.
Proof. induction s1 as [|a s1 IH]; simpl; [reflexivity | now rewrite IH]. Qed.

Lemma concat_empty_cons (x : string) (xs : list string) :
  String.concat "" (x :: xs) = (x ++ String.concat "" xs)%string.
Proof.
  destruct xs as [|y ys]; simpl; [now rewrite string_app_nil_r | reflexivity].
Qed.

Lemma wrote_nothing (f : ofstream) : wrote f f "".
Proof.
  unfold wrote. simpl. rewrite andb_true_r, string_app_nil_r, Nat.sub_0_r. auto.
Qed.

Lemma wrote_put (s : string) (f : ofstream) : wrote f (put s f) s.
Proof.
  unfold wrote, put.
  destruct (os_good f); simpl; [|split; [reflexivity | discriminate]].
  destruct (String.length s <=? os_room f)%nat; simpl; auto.
  split; [reflexivity | discriminate].
Qed.

Lemma wrote_trans (f f' f'' : ofstream) (a b : string) :
  wrote f f' a -> wrote f' f'' b -> wrote f f'' (a ++ b).
Proof.
  unfold wrote. intros [Hg1 Ho1] [Hg2 Ho2].
  rewrite string_length_app.
  destruct (os_good f') eqn:Hg'.
  - destruct (Ho1 eq_refl) as [Hout Hroom].
    symmetry in Hg1. apply andb_true_iff in Hg1 as [Hg Hfit].
    apply Nat.leb_le in Hfit. rewrite Hg. simpl in *.
    split.
    + rewrite Hg2, Hroom.
      destruct (String.length b <=? os_room f - String.length a)%nat eqn:E1;
        symmetry; [apply Nat.leb_le; apply Nat.leb_le in E1
                  |apply Nat.leb_gt; apply Nat.leb_gt in E1]; lia.
    + intros Hg''. destruct (Ho2 Hg'') as [Hout2 Hroom2].
      rewrite Hout2, Hout, Hroom2, Hroom, string_app_assoc. split; [reflexivity | lia].
  - simpl in Hg2. split.
    + rewrite Hg2. symmetry in Hg1. apply andb_false_iff in Hg1 as [Hg | Hfit].
      * rewrite Hg. reflexivity.
      * apply Nat.leb_gt in Hfit.
        replace (String.length a + String.length b <=? os_room f)%nat with false
          by (symmetry; apply Nat.leb_gt; lia).
        now rewrite andb_false_r.
    + rewrite Hg2. discriminate.
Qed.

(** A loop each of whose iterations writes its own piece of text writes the
    pieces one after the other. *)
Lemma for_each_wrote {A : Type} (txt : A -> string) (xs : list A)
    (body : A -> ofstream -> checked ofstream) :
  (forall x f f', In x xs -> body x f = Done f' -> wrote f f' (txt x)) ->
  forall f f', for_each xs body f = Done f' ->
    wrote f f' (String.concat "" (map txt xs)).
Proof.
  induction xs as [|x xs IH]; intros Hbody f f' Hrun.
  - injection Hrun as <-. apply wrote_nothing.
  - simpl in Hrun. apply bind_Done in Hrun as (f1 & H1 & H2).
    change (map txt (x :: xs)) with (txt x :: map txt xs).
    rewrite concat_empty_cons.
    eapply wrote_trans.
    + apply (Hbody x f f1); [left; reflexivity | exact H1].
    + apply IH; [|exact H2]. intros y g g' Hy. apply Hbody. right. exact Hy.
Qed.

Section Generic.

Context {T : Type} `{Scalar T}.
Local Open Scope scalar_scope.

Local Abbreviation Color := (@Color T).
Local Abbreviation Vector4 := (@Vector4 T).
Local Abbreviation Image := (@Image T).
Local Abbreviation Scene := (@Scene T).
Local Abbreviation Basis := (@Basis T).
Local Abbreviation SceneObject := (@SceneObject T).
Local Abbreviation SceneSphere := (@SceneSphere T).
Local Abbreviation Intersection := (@Intersection T).

(** ** Images *)

Lemma Image_width_filled (width height : Z) (fill : Color) :
  (0 < height)%Z -> (0 <= width)%Z ->
  Image_width (filled width height fill) = width.
Proof.
  intros Hh Hw. unfold Image_width, filled. simpl.
  destruct (Z.to_nat height) as [|k] eqn:E; [lia|]. simpl.
  rewrite length_replicate. lia.
Qed.

Lemma Image_height_filled (width height : Z) (fill : Color) :
  (0 <= height)%Z -> Image_height (filled width height fill) = height.
Proof.
  intros Hh. unfold Image_height, filled. simpl. rewrite length_replicate. lia.
Qed.

Lemma Image_pixel_filled (width height : Z) (fill : Color) (x y : Z) :
  (0 <= x < width)%Z -> (0 <= y < height)%Z ->
  Image_pixel (filled width height fill) x y = Done fill.
Proof.
  intros Hx Hy. unfold Image_pixel, is_coordinate, is_x_coordinate, is_y_coordinate.
  rewrite Image_width_filled, Image_height_filled by lia.
  replace (0 <=? x)%Z with true by (symmetry; apply Z.leb_le; lia).
  replace (x <? width)%Z with true by (symmetry; apply Z.ltb_lt; lia).
  replace (0 <=? y)%Z with true by (symmetry; apply Z.leb_le; lia).
  replace (y <? height)%Z with true by (symmetry; apply Z.ltb_lt; lia).
  simpl. rewrite lookup_replicate_2 by lia. rewrite lookup_replicate_2 by lia.
  reflexivity.
Qed.

(** Writing the fill colour into a filled image changes nothing. *)
Lemma Image_set_pixel_filled (width height : Z) (fill : Color) (x y : Z)
    (image' : Image) :
  Image_set_pixel (filled width height fill) x y fill = Done image' ->
  image' = filled width height fill.
Proof.
  unfold Image_set_pixel. intros Hset.
  apply bind_assert_Done in Hset as [_ Hset].
  apply bind_assert_Done in Hset as [_ Hset].
  simpl in Hset.
  destruct (replicate (Z.to_nat height) (replicate (Z.to_nat width) fill)
              !! Z.to_nat y) as [row|] eqn:Hrow; [|discriminate].
  destruct (Z.to_nat x <? length row)%nat eqn:Hlt; [|discriminate].
  injection Hset as <-. unfold filled. f_equal.
  apply Nat.ltb_lt in Hlt.
  pose proof (lookup_replicate_1 _ _ _ _ Hrow) as [-> Hy].
  rewrite length_replicate in Hlt.
  rewrite (list_insert_id (replicate (Z.to_nat width) fill))
    by (apply lookup_replicate_2; exact Hlt).
  apply list_insert_id. exact Hrow.
Qed.

Lemma Image_rect_width (this : Image) (k : nat) (row : list Color) :
  Image_rect this = true ->
  _pixels this !! k = Some row ->
  Image_width this = Z.of_nat (length row).
Proof.
  unfold Image_rect. intros Hrect Hrow.
  rewrite forallb_forall in Hrect.
  symmetry. apply Z.eqb_eq, Hrect.
  apply list_elem_of_In. eapply list_elem_of_lookup_2. exact Hrow.
Qed.

(** The class invariants: the constructor makes a rectangle of the size
    asked for, and [set_pixel] keeps the rectangle and, since it asserts
    [is_color], keeps every pixel a colour. *)
Lemma new_Image_rect (width height : Z) (fill : Color) (img : Image) :
  new_Image width height fill = Done img ->
  img = filled width height fill /\
  Image_rect img = true /\
  Image_width img = width /\ Image_height img = height.
Proof.
  unfold new_Image. intros Hnew. run_inv Hnew. injection Hnew as <-.
  match goal with Hw : (0 <? width)%Z = true |- _ => apply Z.ltb_lt in Hw end.
  match goal with Hh : (0 <? height)%Z = true |- _ => apply Z.ltb_lt in Hh end.
  fold (filled width height fill).
  assert (Hwidth : Image_width (filled width height fill) = width)
    by (apply Image_width_filled; lia).
  repeat split; [|exact Hwidth|apply Image_height_filled; lia].
  unfold Image_rect. rewrite Hwidth. apply forallb_Forall.
  apply Forall_replicate, Z.eqb_eq. rewrite length_replicate. lia.
Qed.

Lemma Image_set_pixel_rect (img img' : Image) (x y : Z) (color : Color) :
  Image_rect img = true ->
  Image_set_pixel img x y color = Done img' ->
  Image_rect img' = true /\
  Image_width img' = Image_width img /\ Image_height img' = Image_height img.
Proof.
  unfold Image_set_pixel. intros Hrect Hset. run_inv Hset.
  destruct (_pixels img !! Z.to_nat y) as [row|] eqn:Hrow; [|discriminate].
  destruct (Z.to_nat x <? length row)%nat; [|discriminate].
  injection Hset as <-.
  assert (Hwidth : Image_width
                     (mkImage (<[Z.to_nat y := <[Z.to_nat x := color]> row]> (_pixels img)))
                   = Image_width img).
  { unfold Image_width. simpl. destruct (_pixels img) as [|r0 rest]; [reflexivity|].
    destruct (Z.to_nat y) as [|k]; simpl in *; [|reflexivity].
    injection Hrow as ->. rewrite length_insert. reflexivity. }
  repeat split; [|exact Hwidth|unfold Image_height; simpl; now rewrite length_insert].
  unfold Image_rect in *. rewrite Hwidth. simpl.
  apply forallb_Forall. apply forallb_Forall in Hrect.
  apply Forall_insert; [exact Hrect|].
  rewrite length_insert. apply Z.eqb_eq. symmetry.
  eapply Image_rect_width; [|exact Hrow].
  unfold Image_rect. apply forallb_Forall. exact Hrect.
Qed.

Lemma Image_set_pixel_colors (img img' : Image) (x y : Z) (color : Color) :
  Image_colors img = true ->
  Image_set_pixel img x y color = Done img' ->
  Image_colors img' = true.
Proof.
  unfold Image_set_pixel, Image_colors. intros Hcol Hset. run_inv Hset.
  destruct (_pixels img !! Z.to_nat y) as [row|] eqn:Hrow; [|discriminate].
  destruct (Z.to_nat x <? length row)%nat; [|discriminate].
  injection Hset as <-. simpl.
  apply forallb_Forall. apply forallb_Forall in Hcol.
  apply Forall_insert; [exact Hcol|].
  apply forallb_Forall, Forall_insert; [|assumption].
  apply forallb_Forall.
  rewrite Forall_lookup in Hcol. exact (Hcol _ _ Hrow).
Qed.

(** ** render *)

Lemma render_object_filled (this : Scene) (axes : Basis) (width height j i : Z)
    (scene_obj : SceneObject) (image image' : Image) :
  render_object this axes width height j i scene_obj image = Done image' ->
  image = filled width height (_background_color this) ->
  image' = filled width height (_background_color this).
Proof.
  unfold render_object. intros Hrun ->.
  destruct (compute_viewing_ray this axes i j width height) as [ray_origin ray_direction].
  apply bind_Done in Hrun as (hit_point & _ & Hrun).
  destruct hit_point as [hit|].
  - injection Hrun as <-. reflexivity.
  - eapply Image_set_pixel_filled. exact Hrun.
Qed.

(** Whatever the scene contains, an image that [render] returns is the
    image it started from: every pixel holds the background colour. *)
Lemma render_filled (this : Scene) (axes : Basis) (width height : Z) (image : Image) :
  render this axes width height = Done image ->
  image = filled width height (_background_color this).
Proof.
  unfold render, new_Image. intros Hrun.
  apply bind_assert_Done in Hrun as [_ Hrun].
  apply bind_assert_Done in Hrun as [_ Hrun].
  apply bind_Done in Hrun as (image0 & Hnew & Hrun).
  apply bind_assert_Done in Hnew as [_ Hnew].
  apply bind_assert_Done in Hnew as [_ Hnew].
  injection Hnew as <-.
  eapply (for_each_invariant
            (fun im => im = filled width height (_background_color this)));
    [|exact Hrun|reflexivity].
  intros j s s'.
  apply (for_each_invariant
           (fun im => im = filled width height (_background_color this))).
  intros i s1 s1'.
  apply (for_each_invariant
           (fun im => im = filled width height (_background_color this))).
  intros obj s2 s2'. apply render_object_filled.
Qed.

(** C7.  A scene without primitives, rendered at any positive size with
    any camera, basis and projection: [render] returns an image, and every
    pixel of it is the background colour of the scene. *)
Theorem render_no_objects (this : Scene) (axes : Basis) (width height : Z) :
  _objects this = [] ->
  (0 < width)%Z -> (0 < height)%Z ->
  exists image,
    render this axes width height = Done image /\
    Image_width image = width /\
    Image_height image = height /\
    forall x y, (0 <= x < width)%Z -> (0 <= y < height)%Z ->
      Image_pixel image x y = Done (_background_color this).
Proof.
  intros Hnone Hw Hh.
  exists (filled width height (_background_color this)).
  split; [|split; [|split]].
  - unfold render, new_Image. rewrite Hnone.
    replace (0 <? width)%Z with true by (symmetry; apply Z.ltb_lt; lia).
    replace (0 <? height)%Z with true by (symmetry; apply Z.ltb_lt; lia).
    simpl. apply for_each_skip. intros j.
    apply for_each_skip. intros i. reflexivity.
  - apply Image_width_filled; lia.
  - apply Image_height_filled; lia.
  - intros x y Hx Hy. apply Image_pixel_filled; assumption.
Qed.

(** ** SceneSphere::intersect *)

Lemma new_Intersection_Done (point normal : Vector4) (t : T) (i : Intersection) :
  new_Intersection point normal t = Done i ->
  i = mkIntersection point normal t /\
  is_homogeneous_point point = true /\
  is_homogeneous_translation normal = true /\
  (of_Z 0 <=? t) = true.
Proof.
  unfold new_Intersection. intros Hnew.
  apply bind_assert_Done in Hnew as [Hp Hnew].
  apply bind_assert_Done in Hnew as [Hn Hnew].
  apply bind_assert_Done in Hnew as [Ht Hnew].
  injection Hnew as <-. auto.
Qed.

(** A negative discriminant is a miss. *)
Lemma SceneSphere_intersect_miss (s : SceneSphere) (ray_origin ray_direction : Vector4) :
  (fst (fst (SceneSphere_roots s ray_origin ray_direction)) <? of_Z 0) = true ->
  SceneSphere_intersect s ray_origin ray_direction = Done None.
Proof.
  unfold SceneSphere_intersect.
  destruct (SceneSphere_roots s ray_origin ray_direction) as [[disc t0] t1].
  simpl. intros ->. reflexivity.
Qed.

(** A hit carries the smaller root, and the constructor has checked that
    it is not negative. *)
Lemma SceneSphere_intersect_hit (s : SceneSphere) (ray_origin ray_direction : Vector4)
    (i : Intersection) (disc t0 t1 : T) :
  SceneSphere_roots s ray_origin ray_direction = (disc, t0, t1) ->
  SceneSphere_intersect s ray_origin ray_direction = Done (Some i) ->
  (disc <? of_Z 0) = false /\
  Intersection_t i = (if t0 <? t1 then t0 else t1) /\
  (of_Z 0 <=? Intersection_t i) = true.
Proof.
  unfold SceneSphere_intersect. intros ->.
  destruct (disc <? of_Z 0); [discriminate|]. intros Hrun.
  apply bind_Done in Hrun as (i0 & Hnew & Hrun). injection Hrun as <-.
  apply new_Intersection_Done in Hnew as (-> & _ & _ & Ht). simpl in *. auto.
Qed.

(** With a discriminant that is not negative and a smaller root that is,
    there is no "no hit": the assertion of the constructor fails. *)
Lemma SceneSphere_intersect_negative (s : SceneSphere)
    (ray_origin ray_direction : Vector4) (disc t0 t1 : T) :
  SceneSphere_roots s ray_origin ray_direction = (disc, t0, t1) ->
  (disc <? of_Z 0) = false ->
  (of_Z 0 <=? (if t0 <? t1 then t0 else t1)) = false ->
  SceneSphere_intersect s ray_origin ray_direction = Aborted.
Proof.
  unfold SceneSphere_intersect, new_Intersection. intros -> -> ->.
  destruct (is_homogeneous_point _); [|reflexivity].
  destruct (is_homogeneous_translation _); reflexivity.
Qed.

Lemma SceneSphere_intersect_normal (s : SceneSphere)
    (ray_origin ray_direction : Vector4) (i : Intersection) :
  SceneSphere_intersect s ray_origin ray_direction = Done (Some i) ->
  Intersection_normal i = vscale (vsub (Intersection_point i) (_center s)) (of_Z 2).
Proof.
  unfold SceneSphere_intersect.
  destruct (SceneSphere_roots s ray_origin ray_direction) as [[disc t0] t1].
  destruct (disc <? of_Z 0); [discriminate|]. intros Hrun.
  run_inv Hrun. injection Hrun as <-.
  match goal with
  | Hnew : new_Intersection _ _ _ = Done _ |- _ =>
      apply new_Intersection_Done in Hnew as (-> & _)
  end.
  reflexivity.
Qed.

Lemma SceneSphere_intersect_point_normal_parts (s : SceneSphere)
    (ray_origin ray_direction : Vector4) (i : Intersection) :
  SceneSphere_intersect s ray_origin ray_direction = Done (Some i) ->
  Intersection_point i = vadd ray_origin (vscale ray_direction (Intersection_t i)) /\
  Intersection_normal i = vscale (vsub (Intersection_point i) (_center s)) (of_Z 2).
Proof.
  intros Hhit. split; [|eapply SceneSphere_intersect_normal; exact Hhit].
  revert Hhit. unfold SceneSphere_intersect.
  destruct (SceneSphere_roots s ray_origin ray_direction) as [[disc t0] t1].
  destruct (disc <? of_Z 0); [discriminate|]. intros Hrun.
  apply bind_Done in Hrun as (i0 & Hnew & Hrun). injection Hrun as <-.
  apply new_Intersection_Done in Hnew as (-> & _). reflexivity.
Qed.

(** C5, as the code has it.  For every hit that [SceneSphere::intersect]
    returns, the hit point is origin + direction * t, and the normal is
    (hit_point - center) * 2, the gradient of the implicit equation, not
    normalised; the point is a homogeneous point and the normal a
    homogeneous direction (fourth component 0). *)
Theorem SceneSphere_intersect_point_normal (s : SceneSphere)
    (ray_origin ray_direction : Vector4) (i : Intersection) :
  SceneSphere_intersect s ray_origin ray_direction = Done (Some i) ->
  Intersection_point i = vadd ray_origin (vscale ray_direction (Intersection_t i)) /\
  Intersection_normal i = vscale (vsub (Intersection_point i) (_center s)) (of_Z 2) /\
  is_homogeneous_point (Intersection_point i) = true /\
  is_homogeneous_translation (Intersection_normal i) = true.
Proof.
  unfold SceneSphere_intersect.
  destruct (SceneSphere_roots s ray_origin ray_direction) as [[disc t0] t1].
  destruct (disc <? of_Z 0); [discriminate|]. intros Hrun.
  apply bind_Done in Hrun as (i0 & Hnew & Hrun). injection Hrun as <-.
  apply new_Intersection_Done in Hnew as (-> & Hp & Hn & _). simpl. auto.
Qed.

(** ** write_ppm *)

Lemma Image_discretize_channel (x : T) (d : Z) :
  Image_discretize x = Done d -> d = channel x.
Proof.
  unfold Image_discretize, channel. intros Hd.
  apply bind_assert_Done in Hd as [_ Hd]. injection Hd as <-.
  destruct (sround (x * of_Z 255)%S <? 0)%Z eqn:E1.
  - apply Z.ltb_lt in E1. lia.
  - apply Z.ltb_ge in E1.
    destruct (255 <? sround (x * of_Z 255)%S)%Z eqn:E2;
      [apply Z.ltb_lt in E2 | apply Z.ltb_ge in E2]; lia.
Qed.

Lemma channel_range (x : T) : (0 <= channel x <= 255)%Z.
Proof. unfold channel. lia. Qed.

Lemma triple_text_eq (c : Color) :
  triple_text c =
  (dec (channel (v3_0 c)) ++ " " ++ dec (channel (v3_1 c)) ++ " " ++
   dec (channel (v3_2 c)))%string.
Proof. reflexivity. Qed.

Lemma write_ppm_pixel_wrote (this : Image) (y x : Z) (row : list Color)
    (c : Color) (f f' : ofstream) :
  _pixels this !! Z.to_nat y = Some row ->
  row !! Z.to_nat x = Some c ->
  write_ppm_pixel this y x f = Done f' ->
  wrote f f' ((if (0 <? x)%Z then " " else "") ++ triple_text c).
Proof.
  intros Hrow Hc. unfold write_ppm_pixel. intros Hrun.
  apply bind_Done in Hrun as (c0 & Hpix & Hrun).
  unfold Image_pixel in Hpix. apply bind_assert_Done in Hpix as [_ Hpix].
  rewrite Hrow, Hc in Hpix. injection Hpix as <-.
  apply bind_Done in Hrun as (r & Hr & Hrun).
  apply bind_Done in Hrun as (g & Hg & Hrun).
  apply bind_Done in Hrun as (b & Hb & Hrun).
  injection Hrun as <-.
  apply Image_discretize_channel in Hr, Hg, Hb. subst r g b.
  rewrite triple_text_eq.
  destruct (0 <? x)%Z;
    (eapply wrote_trans; [first [apply wrote_nothing | apply wrote_put]|]);
    repeat (eapply wrote_trans; [apply wrote_put|]); apply wrote_put.
Qed.

Lemma concat_space_cons (c : Color) (rest : list Color) :
  String.concat " " (map triple_text (c :: rest)) =
  (triple_text c ++ spaced_text rest)%string.
Proof.
  revert c. induction rest as [|d rest IH]; intros c.
  - simpl. now rewrite string_app_nil_r.
  - change (String.concat " " (map triple_text (c :: d :: rest)))
      with (triple_text c ++ " " ++ String.concat " " (map triple_text (d :: rest)))%string.
    rewrite IH. unfold spaced_text.
    change (map (fun c0 => (" " ++ triple_text c0)%string) (d :: rest))
      with ((" " ++ triple_text d)%string ::
            map (fun c0 => (" " ++ triple_text c0)%string) rest).
    rewrite concat_empty_cons. reflexivity.
Qed.

(** The inner loop of [write_ppm] from column [k > 0] on. *)
Lemma write_ppm_tail_wrote (this : Image) (y : Z) (row : list Color) :
  _pixels this !! Z.to_nat y = Some row ->
  forall (rest : list Color) (k : nat) (f f' : ofstream),
    (0 < k)%nat -> drop k row = rest ->
    for_each (seqZ (Z.of_nat k) (Z.of_nat (length rest)))
             (write_ppm_pixel this y) f = Done f' ->
    wrote f f' (spaced_text rest).
Proof.
  intros Hrow. induction rest as [|c rest IH]; intros k f f' Hk Hdrop Hrun.
  - injection Hrun as <-. apply wrote_nothing.
  - rewrite seqZ_cons in Hrun by (simpl length; lia).
    simpl for_each in Hrun. apply bind_Done in Hrun as (f1 & H1 & H2).
    assert (Hc : row !! k = Some c).
    { rewrite <- (Nat.add_0_r k), <- lookup_drop, Hdrop. reflexivity. }
    assert (Hrest : drop (S k) row = rest).
    { replace (S k) with (k + 1)%nat by lia.
      rewrite <- drop_drop, Hdrop. reflexivity. }
    unfold spaced_text.
    change (map (fun c0 => (" " ++ triple_text c0)%string) (c :: rest))
      with ((" " ++ triple_text c)%string ::
            map (fun c0 => (" " ++ triple_text c0)%string) rest).
    rewrite concat_empty_cons.
    eapply wrote_trans.
    + pose proof (write_ppm_pixel_wrote this y (Z.of_nat k) row c f f1 Hrow) as Hp.
      rewrite Nat2Z.id in Hp. specialize (Hp Hc H1).
      replace (0 <? Z.of_nat k)%Z with true in Hp
        by (symmetry; apply Z.ltb_lt; lia).
      exact Hp.
    + apply (IH (S k)); [lia | exact Hrest |].
      replace (Z.of_nat (S k)) with (Z.succ (Z.of_nat k)) by lia.
      replace (Z.of_nat (length rest))
        with (Z.pred (Z.of_nat (length (c :: rest)))) by (simpl length; lia).
      exact H2.
Qed.

Lemma write_ppm_row_wrote (this : Image) (y : Z) (row : list Color)
    (f f' : ofstream) :
  _pixels this !! Z.to_nat y = Some row ->
  Image_width this = Z.of_nat (length row) ->
  write_ppm_row this y f = Done f' ->
  wrote f f' (row_text row).
Proof.
  intros Hrow Hwidth. unfold write_ppm_row. intros Hrun.
  apply bind_Done in Hrun as (f1 & Hloop & Hrun). injection Hrun as <-.
  rewrite Hwidth in Hloop. unfold row_text.
  eapply wrote_trans; [|apply wrote_put].
  destruct row as [|c rest].
  - injection Hloop as <-. apply wrote_nothing.
  - rewrite concat_space_cons.
    rewrite seqZ_cons in Hloop by (simpl length; lia).
    simpl for_each in Hloop. apply bind_Done in Hloop as (f2 & H1 & H2).
    eapply wrote_trans.
    + apply (write_ppm_pixel_wrote this y 0 (c :: rest) c f f2 Hrow eq_refl H1).
    + apply (write_ppm_tail_wrote this y (c :: rest) Hrow rest 1 f2 f1);
        [lia | reflexivity |].
      replace (Z.of_nat (length rest))
        with (Z.pred (Z.of_nat (length (c :: rest)))) by (simpl length; lia).
      exact H2.
Qed.

(** The outer loop, from row [n - 1] down to row 0, writes the first [n]
    rows in reverse. *)
Lemma write_ppm_rows_wrote (this : Image) :
  Image_rect this = true ->
  forall (n : nat) (f f' : ofstream),
    (n <= length (_pixels this))%nat ->
    for_down n (write_ppm_row this) f = Done f' ->
    wrote f f' (String.concat "" (map row_text (rev (take n (_pixels this))))).
Proof.
  intros Hrect. induction n as [|k IH]; intros f f' Hn Hrun.
  - injection Hrun as <-. rewrite take_0. apply wrote_nothing.
  - simpl in Hrun. apply bind_Done in Hrun as (f1 & H1 & H2).
    destruct (lookup_lt_is_Some_2 (_pixels this) k) as [row Hrow]; [lia|].
    rewrite (take_S_r _ _ _ Hrow), rev_unit.
    change (map row_text (row :: rev (take k (_pixels this))))
      with (row_text row :: map row_text (rev (take k (_pixels this)))).
    rewrite concat_empty_cons.
    eapply wrote_trans.
    + apply (write_ppm_row_wrote this (Z.of_nat k) row f f1);
        [rewrite Nat2Z.id; exact Hrow
        |eapply Image_rect_width; eassumption
        |exact H1].
    + apply IH; [lia | exact H2].
Qed.

(** What [write_ppm] does once the file is open. *)
Lemma Image_write_ppm_wrote (this : Image) (path : string) (fs : FileSystem)
    (ok : bool) (this' : Image) (fs' : FileSystem) :
  Image_rect this = true ->
  f_writable (fs path) = true ->
  Image_write_ppm this path fs = Done (ok, this', fs') ->
  exists f', wrote (open fs path) f' (ppm_text this) /\
             ok = os_good f' /\ fs' = close fs path f'.
Proof.
  intros Hrect Hopen. unfold Image_write_ppm.
  change (os_good (open fs path)) with (f_writable (fs path)).
  rewrite Hopen. simpl negb. cbv iota. intros Hrun.
  apply bind_Done in Hrun as (f' & Hloop & Hrun). injection Hrun as <- _ <-.
  exists f'. split; [|split; reflexivity].
  apply write_ppm_rows_wrote in Hloop;
    [|exact Hrect|unfold Image_height; rewrite Nat2Z.id; lia].
  unfold Image_height in Hloop at 2. rewrite Nat2Z.id, firstn_all in Hloop.
  unfold ppm_text.
  repeat (eapply wrote_trans; [apply wrote_put|]).
  exact Hloop.
Qed.

(** On an image that satisfies the class invariants no assertion of
    [write_ppm] fails. *)
Lemma Image_discretize_Done (x : T) :
  is_color_intensity x = true -> exists d, Image_discretize x = Done d.
Proof. intros Hx. unfold Image_discretize. rewrite Hx. simpl. eauto. Qed.

Lemma write_ppm_pixel_Done (this : Image) (k : nat) (x : Z) (f : ofstream) :
  Image_rect this = true -> Image_colors this = true ->
  (k < length (_pixels this))%nat -> (0 <= x < Image_width this)%Z ->
  exists f', write_ppm_pixel this (Z.of_nat k) x f = Done f'.
Proof.
  intros Hrect Hcol Hk Hx.
  destruct (lookup_lt_is_Some_2 (_pixels this) k Hk) as [row Hrow].
  pose proof (Image_rect_width this k row Hrect Hrow) as Hwidth.
  destruct (lookup_lt_is_Some_2 row (Z.to_nat x)) as [c Hc]; [lia|].
  assert (Hc3 : is_color c = true).
  { unfold Image_colors in Hcol. rewrite forallb_forall in Hcol.
    assert (Hin : In row (_pixels this))
      by (apply list_elem_of_In; eapply list_elem_of_lookup_2; exact Hrow).
    specialize (Hcol row Hin). rewrite forallb_forall in Hcol.
    apply Hcol. apply list_elem_of_In. eapply list_elem_of_lookup_2. exact Hc. }
  unfold is_color in Hc3.
  apply andb_true_iff in Hc3 as [Hc3 H2]. apply andb_true_iff in Hc3 as [H0 H1].
  destruct (Image_discretize_Done _ H0) as [r Hr].
  destruct (Image_discretize_Done _ H1) as [g Hg].
  destruct (Image_discretize_Done _ H2) as [b Hb].
  unfold write_ppm_pixel, Image_pixel, is_coordinate, is_x_coordinate,
    is_y_coordinate, Image_height.
  replace (0 <=? x)%Z with true by (symmetry; apply Z.leb_le; lia).
  replace (x <? Image_width this)%Z with true by (symmetry; apply Z.ltb_lt; lia).
  replace (0 <=? Z.of_nat k)%Z with true by (symmetry; apply Z.leb_le; lia).
  replace (Z.of_nat k <? Z.of_nat (length (_pixels this)))%Z with true
    by (symmetry; apply Z.ltb_lt; lia).
  simpl. rewrite Nat2Z.id, Hrow, Hc. simpl.
  rewrite Hr. simpl. rewrite Hg. simpl. rewrite Hb. simpl. eauto.
Qed.

Lemma Image_write_ppm_Done (this : Image) (path : string) (fs : FileSystem) :
  Image_rect this = true -> Image_colors this = true ->
  exists ok fs', Image_write_ppm this path fs = Done (ok, this, fs').
Proof.
  intros Hrect Hcol. unfold Image_write_ppm.
  destruct (negb (os_good (open fs path))); [eauto|].
  match goal with
  | |- context [for_down ?n ?body ?f0] =>
      destruct (for_down_Done n body) with (s := f0) as [f' Hloop]
  end.
  - intros k f Hk. unfold write_ppm_row.
    destruct (for_each_Done (seqZ 0 (Image_width this))
                (write_ppm_pixel this (Z.of_nat k))) with (s := f) as [f1 H1].
    + intros x g Hx. apply list_elem_of_In, elem_of_seqZ in Hx.
      apply write_ppm_pixel_Done; try assumption;
        unfold Image_height in Hk; lia.
    + rewrite H1. simpl. eauto.
  - rewrite Hloop. simpl. eauto.
Qed.

(** C8.  When [write_ppm] reports success, the file holds exactly the
    text of the specification: the header line, the "width height" line,
    the "255" line, then one line per row, from the last row in memory
    (the top scanline) down to row 0, each made of the space-separated
    triples of the row from left to right, every channel being
    round(intensity * 255) clamped to [0, 255]. *)
Theorem write_ppm_text (this : Image) (path : string) (fs : FileSystem)
    (this' : Image) (fs' : FileSystem) :
  Image_rect this = true ->
  Image_write_ppm this path fs = Done (true, this', fs') ->
  f_content (fs' path) = ppm_text this.
Proof.
  intros Hrect Hrun.
  destruct (f_writable (fs path)) eqn:Hopen.
  - destruct (Image_write_ppm_wrote _ _ _ _ _ _ Hrect Hopen Hrun)
      as (f' & [_ Hout] & Hok & ->).
    destruct (Hout (eq_sym Hok)) as [Hout' _].
    unfold close. rewrite String.eqb_refl. simpl. exact Hout'.
  - unfold Image_write_ppm in Hrun.
    change (os_good (open fs path)) with (f_writable (fs path)) in Hrun.
    rewrite Hopen in Hrun. discriminate.
Qed.

(** C9.  If the destination cannot be opened, [write_ppm] returns false,
    without aborting and without touching the file system.  On an image
    that satisfies the class invariants it always returns, and the status
    is true exactly when the file could be opened and every write went
    through (the device had room for the whole text).  The image is the
    same after any call that returns. *)
Theorem write_ppm_status (this : Image) (path : string) (fs : FileSystem) :
  (f_writable (fs path) = false ->
   Image_write_ppm this path fs = Done (false, this, fs)) /\
  (Image_rect this = true -> Image_colors this = true ->
   exists fs',
     Image_write_ppm this path fs =
     Done (f_writable (fs path) &&
           (String.length (ppm_text this) <=? f_room (fs path))%nat,
           this, fs')) /\
  (forall ok this' fs',
     Image_write_ppm this path fs = Done (ok, this', fs') -> this' = this).
Proof.
  assert (Hclosed : f_writable (fs path) = false ->
                    Image_write_ppm this path fs = Done (false, this, fs)).
  { intros Hopen. unfold Image_write_ppm.
    change (os_good (open fs path)) with (f_writable (fs path)).
    rewrite Hopen. reflexivity. }
  split; [exact Hclosed|split].
  - intros Hrect Hcol.
    destruct (f_writable (fs path)) eqn:Hopen.
    + destruct (Image_write_ppm_Done this path fs Hrect Hcol) as (ok & fs' & Hrun).
      destruct (Image_write_ppm_wrote _ _ _ _ _ _ Hrect Hopen Hrun)
        as (f' & [Hgood _] & Hok & _).
      exists fs'. rewrite Hrun. repeat f_equal.
      rewrite Hok, Hgood. simpl. rewrite Hopen. reflexivity.
    + exists fs. simpl. apply Hclosed. reflexivity.
  - intros ok this' fs'. unfold Image_write_ppm.
    destruct (negb (os_good (open fs path))).
    + intros Hrun. injection Hrun as _ <- _. reflexivity.
    + intros Hrun. apply bind_Done in Hrun as (f' & _ & Hrun).
      injection Hrun as _ <- _. reflexivity.
Qed.

End Generic.

(** ** binary64: the program on concrete inputs *)

Section Binary64Facts.

Local Open Scope float_scope.

(** The scenes of [Demo] are ones the constructors accept. *)
Lemma Demo_constructed :
  new_SceneSphere Demo.white Demo.white (vector4_point 0 0 (-5)) 1 = Done Demo.ball /\
  new_SceneSphere Demo.white Demo.white (vector4_point 0 0 0) 2 = Done Demo.shell /\
  new_Camera Demo.eye Demo.forward (vector4_translation 0 1 0) (-1) 1 1 (-1) 1
    = Done Demo.camera /\
  new_Light Demo.white 0.25 = Done Demo.ambient /\
  new_PointLight Demo.white 1 Demo.eye = Done Demo.lamp /\
  new_PointLight Demo.red 1 (vector4_point 0 0 (-2)) = Done Demo.red_lamp /\
  new_PointLight Demo.white 4 (vector4_point 0 0 (-3)) = Done Demo.floodlight /\
  new_Scene Demo.ambient Demo.black Demo.camera true = Done Demo.empty_scene.
Proof. vm_compute. repeat split. Qed.

(** C1, on the code.  A 1 x 1 rendering of a scene whose only sphere lies
    straight ahead: the viewing ray of the pixel hits the sphere at t = 4,
    shading that hit gives mid grey, and yet the rendered pixel is the
    black background. *)
Theorem render_hit_keeps_background :
  compute_viewing_ray Demo.scene Demo.axes 0 0 1 1 = (Demo.eye, Demo.forward) /\
  intersect (Sphere Demo.ball) Demo.eye Demo.forward
    = Done (Some (mkIntersection Demo.hit Demo.hit_normal 4)) /\
  evaluate_shading Demo.scene (Sphere Demo.ball) Demo.hit Demo.hit_normal
    = vector3 0.5 0.5 0.5 /\
  render Demo.scene Demo.axes 1 1 = Done (filled 1 1 Demo.black) /\
  Image_pixel (filled 1 1 Demo.black) 0 0 = Done Demo.black.
Proof. vm_compute. repeat split. Qed.

(** C2, on the code.  With the sphere behind the ray both roots are
    negative (-4 and -6), and with the ray starting inside the sphere the
    roots are 2 and -2: in both cases the discriminant is positive, the
    smaller root is taken as it is, and the assertion [t >= 0.0] of the
    [Intersection] constructor fails. *)
Theorem intersect_negative_root_aborts :
  SceneSphere_roots Demo.ball Demo.eye Demo.backward = (4, -4, -6) /\
  SceneSphere_intersect Demo.ball Demo.eye Demo.backward = Aborted /\
  SceneSphere_roots Demo.shell Demo.eye Demo.forward = (16, 2, -2) /\
  SceneSphere_intersect Demo.shell Demo.eye Demo.forward = Aborted.
Proof. vm_compute. repeat split. Qed.

(** C3, on the code.  A point light of intensity 4 one unit in front of
    the hit point: the accumulated light is 4.25 in every channel, which
    is what the function ends with; it is not a colour. *)
Theorem evaluate_shading_not_clamped :
  evaluate_shading Demo.bright_scene (Sphere Demo.ball) Demo.hit Demo.hit_normal
    = vector3 4.25 4.25 4.25 /\
  is_color (evaluate_shading Demo.bright_scene (Sphere Demo.ball)
              Demo.hit Demo.hit_normal) = false.
Proof. vm_compute. split; reflexivity. Qed.

(** C4, on the code.  A red point light of intensity 1 two units from the
    hit point, facing the surface: the loop adds 1/2 to every channel
    (intensity over distance, the colour of the light unused), where the
    formula of the specification gives 1/4 in the red channel only. *)
Theorem point_light_term_inverse_distance :
  point_light_term (Sphere Demo.ball) Demo.hit (vector4_translation 0 0 1)
                   Demo.red_lamp = vector3 0.5 0.5 0.5 /\
  point_light_contribution_spec (Sphere Demo.ball) Demo.hit
                   (vector4_translation 0 0 1) Demo.red_lamp = vector3 0.25 0 0.
Proof. vm_compute. split; reflexivity. Qed.


(** C5 as stated fails: the normal of the hit of the central ray on
    [Demo.ball] is (0, 0, 2, 0), of length 2, and not the normalised
    (0, 0, 1, 0). *)
Lemma intersect_normal_not_normalized :
  exists i,
    SceneSphere_intersect Demo.ball Demo.eye Demo.forward = Done (Some i) /\
    Intersection_normal i
      <> normalized (vsub (Intersection_point i) (_center Demo.ball)).
Proof.
  eexists. split; [vm_compute; reflexivity|].
  intros Heq.
  apply (f_equal (fun v => PrimFloat.eqb (v4_2 v) 2)) in Heq.
  vm_compute in Heq. discriminate.
Qed.

Lemma SceneSphere_intersect_point_normal_witness :
  Intersection_point (mkIntersection Demo.hit Demo.hit_normal 4)
    = vadd Demo.eye (vscale Demo.forward 4) /\
  Intersection_normal (mkIntersection Demo.hit Demo.hit_normal 4)
    = vscale (vsub Demo.hit (_center Demo.ball)) (of_Z 2) /\
  is_homogeneous_point Demo.hit = true /\
  is_homogeneous_translation Demo.hit_normal = true.
Proof.
  apply (SceneSphere_intersect_point_normal Demo.ball Demo.eye Demo.forward
           (mkIntersection Demo.hit Demo.hit_normal 4)).
  vm_compute. reflexivity.
Defined.

Lemma render_no_objects_witness :
  exists image,
    render Demo.empty_scene Demo.axes 2 3 = Done image /\
    Image_width image = 2%Z /\
    Image_height image = 3%Z /\
    forall x y, (0 <= x < 2)%Z -> (0 <= y < 3)%Z ->
      Image_pixel image x y = Done Demo.black.
Proof.
  apply (render_no_objects Demo.empty_scene Demo.axes 2 3);
    [reflexivity | lia | lia].
Defined.

Lemma write_ppm_text_witness :
  f_content (close (Demo.disk true 100) "out.ppm"
               (mkStream (ppm_text Demo.picture) 52 true) "out.ppm"%string)
  = ppm_text Demo.picture.
Proof.
  apply (write_ppm_text Demo.picture "out.ppm" (Demo.disk true 100) Demo.picture).
  - vm_compute. reflexivity.
  - vm_compute. reflexivity.
Defined.

Lemma write_ppm_status_witness :
  Image_write_ppm Demo.picture "out.ppm" (Demo.disk false 100)
    = Done (false, Demo.picture, Demo.disk false 100) /\
  exists fs',
    Image_write_ppm Demo.picture "out.ppm" (Demo.disk true 20)
    = Done (f_writable (Demo.disk true 20 "out.ppm"%string) &&
            (String.length (ppm_text Demo.picture)
             <=? f_room (Demo.disk true 20 "out.ppm"%string))%nat,
            Demo.picture, fs').
Proof.
  split.
  - apply (proj1 (write_ppm_status Demo.picture "out.ppm" (Demo.disk false 100))).
    reflexivity.
  - apply (proj1 (proj2 (write_ppm_status Demo.picture "out.ppm" (Demo.disk true 20))));
      vm_compute; reflexivity.
Defined.

(** *** web_color *)

Lemma all_bytes_round_trip : forallb byte_round_trip (seqZ 0 256) = true.
Proof. vm_compute. reflexivity. Qed.

Lemma byte_round_trip_ok (b : Z) :
  (0 <= b < 256)%Z ->
  @is_color_intensity float _ (of_Z b / of_Z 255)%S = true /\
  @sround float _ ((of_Z b / of_Z 255) * of_Z 255)%S = b.
Proof.
  intros Hb. pose proof all_bytes_round_trip as Hall.
  rewrite forallb_forall in Hall.
  assert (Hin : In b (seqZ 0 256)) by (apply list_elem_of_In, elem_of_seqZ; lia).
  specialize (Hall b Hin). unfold byte_round_trip in Hall.
  apply andb_true_iff in Hall as [Hi Hr]. apply Z.eqb_eq in Hr. auto.
Qed.

Lemma web_color_bytes (hex : Z) :
  (0 <= hex <= 0xFFFFFF)%Z ->
  (0 <= Z.shiftr hex 16 < 256)%Z /\
  (0 <= Z.land (Z.shiftr hex 8) 0xFF < 256)%Z /\
  (0 <= Z.land hex 0xFF < 256)%Z.
Proof.
  intros Hhex. change 0xFF%Z with (Z.ones 8).
  rewrite !Z.land_ones by lia. rewrite Z.shiftr_div_pow2 by lia.
  repeat split; try (apply Z.mod_pos_bound; lia).
  - apply Z.div_pos; lia.
  - apply Z.div_lt_upper_bound; lia.
Qed.

Lemma Image_discretize_byte (b : Z) :
  (0 <= b < 256)%Z ->
  @Image_discretize float _ (of_Z b / of_Z 255)%S = Done b.
Proof.
  intros Hb. destruct (byte_round_trip_ok b Hb) as [Hi Hr].
  unfold Image_discretize. rewrite Hi, Hr. simpl.
  replace (b <? 0)%Z with false by (symmetry; apply Z.ltb_ge; lia).
  replace (255 <? b)%Z with false by (symmetry; apply Z.ltb_ge; lia).
  reflexivity.
Qed.

(** C10.  For every 24-bit [hex], [web_color hex] passes both of its
    assertions and returns a colour whose channels, multiplied by 255.0
    and rounded in binary64, are the three bytes of [hex]; [discretize]
    returns those bytes. *)
Theorem web_color_round_trip (hex : Z) :
  (0 <= hex <= 0xFFFFFF)%Z ->
  exists c : @Color float,
    web_color hex = Done c /\
    is_color c = true /\
    sround (v3_0 c * of_Z 255)%S = Z.shiftr hex 16 /\
    sround (v3_1 c * of_Z 255)%S = Z.land (Z.shiftr hex 8) 0xFF /\
    sround (v3_2 c * of_Z 255)%S = Z.land hex 0xFF /\
    Image_discretize (v3_0 c) = Done (Z.shiftr hex 16) /\
    Image_discretize (v3_1 c) = Done (Z.land (Z.shiftr hex 8) 0xFF) /\
    Image_discretize (v3_2 c) = Done (Z.land hex 0xFF).
Proof.
  intros Hhex. destruct (web_color_bytes hex Hhex) as (Hr & Hg & Hb).
  destruct (byte_round_trip_ok _ Hr) as [Hri Hrr].
  destruct (byte_round_trip_ok _ Hg) as [Hgi Hgr].
  destruct (byte_round_trip_ok _ Hb) as [Hbi Hbr].
  assert (Hcol : @is_color float _
                   (vector3 (of_Z (Z.shiftr hex 16) / of_Z 255)%S
                            (of_Z (Z.land (Z.shiftr hex 8) 0xFF) / of_Z 255)%S
                            (of_Z (Z.land hex 0xFF) / of_Z 255)%S) = true).
  { unfold is_color. cbv beta iota delta [v3_0 v3_1 v3_2].
    rewrite Hri, Hgi, Hbi. reflexivity. }
  eexists. split.
  - unfold web_color.
    replace (hex <=? 0xFFFFFF)%Z with true by (symmetry; apply Z.leb_le; lia).
    cbv beta iota delta [assert bind]. rewrite Hcol. reflexivity.
  - cbv beta iota delta [v3_0 v3_1 v3_2].
    repeat split; try assumption; apply Image_discretize_byte; assumption.
Qed.

Lemma web_color_round_trip_witness :
  exists c : @Color float,
    web_color 0xFF8000 = Done c /\
    is_color c = true /\
    sround (v3_0 c * of_Z 255)%S = Z.shiftr 0xFF8000 16 /\
    sround (v3_1 c * of_Z 255)%S = Z.land (Z.shiftr 0xFF8000 8) 0xFF /\
    sround (v3_2 c * of_Z 255)%S = Z.land 0xFF8000 0xFF /\
    Image_discretize (v3_0 c) = Done (Z.shiftr 0xFF8000 16) /\
    Image_discretize (v3_1 c) = Done (Z.land (Z.shiftr 0xFF8000 8) 0xFF) /\
    Image_discretize (v3_2 c) = Done (Z.land 0xFF8000 0xFF).
Proof. apply (web_color_round_trip 0xFF8000). lia. Defined.

End Binary64Facts.



(** * Further properties of the module *)

(** ** Image: construction, reads and writes *)

Section ImageFacts.

Context {T : Type} `{Scalar T}.

Local Abbreviation Color := (@Color T).
Local Abbreviation Image := (@Image T).

Lemma is_coordinate_bounds (img : Image) (x y : Z) :
  is_coordinate img x y = true <->
  (0 <= x < Image_width img)%Z /\ (0 <= y < Image_height img)%Z.
Proof.
  unfold is_coordinate, is_x_coordinate, is_y_coordinate.
  rewrite !andb_true_iff, !Z.leb_le, !Z.ltb_lt. tauto.
Qed.

(** In a rectangular image a valid coordinate names a stored pixel. *)
Lemma Image_rect_lookup (img : Image) (x y : Z) :
  Image_rect img = true ->
  is_coordinate img x y = true ->
  exists row c,
    _pixels img !! Z.to_nat y = Some row /\
    row !! Z.to_nat x = Some c /\
    (Z.to_nat x < length row)%nat.
Proof.
  intros Hrect Hxy. apply is_coordinate_bounds in Hxy as [Hx Hy].
  unfold Image_height in Hy.
  destruct (lookup_lt_is_Some_2 (_pixels img) (Z.to_nat y)) as [row Hrow]; [lia|].
  pose proof (Image_rect_width img _ row Hrect Hrow) as Hwidth.
  destruct (lookup_lt_is_Some_2 row (Z.to_nat x)) as [c Hc]; [lia|].
  exists row, c. repeat split; [exact Hrow | exact Hc | lia].
Qed.

(** What a [set_pixel] that returns has checked and done. *)
Lemma Image_set_pixel_Done_inv (img img' : Image) (x y : Z) (color : Color) :
  Image_set_pixel img x y color = Done img' ->
  is_coordinate img x y = true /\ is_color color = true /\
  exists row,
    _pixels img !! Z.to_nat y = Some row /\
    (Z.to_nat x < length row)%nat /\
    _pixels img' = <[Z.to_nat y := <[Z.to_nat x := color]> row]> (_pixels img) /\
    Image_width img' = Image_width img /\
    Image_height img' = Image_height img.
Proof.
  unfold Image_set_pixel. intros Hset.
  apply bind_assert_Done in Hset as [Hxy Hset].
  apply bind_assert_Done in Hset as [Hcol Hset].
  destruct (_pixels img !! Z.to_nat y) as [row|] eqn:Hrow; [|discriminate].
  destruct (Z.to_nat x <? length row)%nat eqn:Hlt; [|discriminate].
  injection Hset as <-. apply Nat.ltb_lt in Hlt.
  split; [exact Hxy|]. split; [exact Hcol|].
  exists row. repeat split; try assumption.
  - unfold Image_width. simpl. destruct (_pixels img) as [|r0 rest]; [reflexivity|].
    destruct (Z.to_nat y) as [|k]; simpl in *; [|reflexivity].
    injection Hrow as ->. rewrite length_insert. reflexivity.
  - unfold Image_height. simpl. now rewrite length_insert.
Qed.

Lemma Image_pixel_lookup (img : Image) (x y : Z) (row : list Color) (c : Color) :
  is_coordinate img x y = true ->
  _pixels img !! Z.to_nat y = Some row ->
  row !! Z.to_nat x = Some c ->
  Image_pixel img x y = Done c.
Proof.
  intros Hxy Hrow Hc. unfold Image_pixel. rewrite Hxy. simpl.
  rewrite Hrow, Hc. reflexivity.
Qed.

(** X1.  The constructor aborts unless both sizes are positive; when they
    are, the image has exactly that width and height, its rows all have
    that width, and every pixel reads back as the fill colour. *)
Theorem new_Image_filled (width height : Z) (fill : Color) :
  ((width <= 0)%Z \/ (height <= 0)%Z -> new_Image width height fill = Aborted) /\
  ((0 < width)%Z -> (0 < height)%Z ->
   exists img,
     new_Image width height fill = Done img /\
     Image_width img = width /\ Image_height img = height /\
     Image_rect img = true /\
     forall x y, (0 <= x < width)%Z -> (0 <= y < height)%Z ->
       Image_pixel img x y = Done fill).
Proof.
  split.
  - unfold new_Image. intros [Hw | Hh].
    + replace (0 <? width)%Z with false by (symmetry; apply Z.ltb_ge; lia).
      reflexivity.
    + destruct (0 <? width)%Z; [|reflexivity].
      replace (0 <? height)%Z with false by (symmetry; apply Z.ltb_ge; lia).
      reflexivity.
  - intros Hw Hh.
    assert (Hnew : new_Image width height fill = Done (filled width height fill)).
    { unfold new_Image.
      replace (0 <? width)%Z with true by (symmetry; apply Z.ltb_lt; lia).
      replace (0 <? height)%Z with true by (symmetry; apply Z.ltb_lt; lia).
      reflexivity. }
    exists (filled width height fill). split; [exact Hnew|].
    destruct (new_Image_rect _ _ _ _ Hnew) as (_ & Hrect & Hwidth & Hheight).
    repeat split; try assumption.
    intros x y Hx Hy. apply Image_pixel_filled; assumption.
Qed.

(** X2.  A pixel that [set_pixel] stored is the pixel that [pixel] reads
    at the same coordinates. *)
Theorem Image_pixel_set_pixel (img img' : Image) (x y : Z) (color : Color) :
  Image_set_pixel img x y color = Done img' ->
  Image_pixel img' x y = Done color.
Proof.
  intros Hset.
  apply Image_set_pixel_Done_inv in Hset
    as (Hxy & _ & row & Hrow & Hlt & Hpix & Hwidth & Hheight).
  apply (Image_pixel_lookup img' x y (<[Z.to_nat x := color]> row)).
  - apply is_coordinate_bounds. rewrite Hwidth, Hheight.
    apply is_coordinate_bounds. exact Hxy.
  - rewrite Hpix. apply list_lookup_insert_eq.
    eapply lookup_lt_Some. exact Hrow.
  - apply list_lookup_insert_eq. exact Hlt.
Qed.

(** X3.  [set_pixel] changes one pixel only: reading any other
    coordinates, valid or not, gives what it gave before. *)
Theorem Image_pixel_set_pixel_other (img img' : Image) (x y x' y' : Z)
    (color : Color) :
  Image_set_pixel img x y color = Done img' ->
  (x', y') <> (x, y) ->
  Image_pixel img' x' y' = Image_pixel img x' y'.
Proof.
  intros Hset Hne.
  apply Image_set_pixel_Done_inv in Hset
    as (Hxy & _ & row & Hrow & Hlt & Hpix & Hwidth & Hheight).
  assert (Hcoord : is_coordinate img' x' y' = is_coordinate img x' y').
  { unfold is_coordinate, is_x_coordinate, is_y_coordinate.
    rewrite Hwidth, Hheight. reflexivity. }
  unfold Image_pixel. rewrite Hcoord.
  destruct (is_coordinate img x' y') eqn:Hxy'; [|reflexivity].
  simpl. rewrite Hpix.
  apply is_coordinate_bounds in Hxy as [Hx Hy].
  apply is_coordinate_bounds in Hxy' as [Hx' Hy'].
  destruct (Z.eq_dec y' y) as [->|Hy_ne].
  - rewrite list_lookup_insert_eq by (eapply lookup_lt_Some; exact Hrow).
    rewrite Hrow.
    rewrite list_lookup_insert_ne; [reflexivity|].
    intros Heq. apply Z2Nat.inj in Heq; [|lia|lia]. subst x'. now apply Hne.
  - rewrite list_lookup_insert_ne; [reflexivity|].
    intros Heq. apply Z2Nat.inj in Heq; [|lia|lia]. subst y'. now apply Hy_ne.
Qed.

(** X4.  On a rectangular image [set_pixel] goes through exactly when the
    coordinates are inside the image and the colour is a colour; in every
    other case an assertion fails. *)
Theorem Image_set_pixel_accepts (img : Image) (x y : Z) (color : Color) :
  Image_rect img = true ->
  ((exists img', Image_set_pixel img x y color = Done img') <->
   (0 <= x < Image_width img)%Z /\ (0 <= y < Image_height img)%Z /\
   is_color color = true).
Proof.
  intros Hrect. split.
  - intros [img' Hset].
    apply Image_set_pixel_Done_inv in Hset as (Hxy & Hcol & _).
    apply is_coordinate_bounds in Hxy. tauto.
  - intros (Hx & Hy & Hcol).
    assert (Hxy : is_coordinate img x y = true)
      by (apply is_coordinate_bounds; tauto).
    destruct (Image_rect_lookup img x y Hrect Hxy) as (row & c & Hrow & _ & Hlt).
    unfold Image_set_pixel. rewrite Hxy, Hcol. simpl. rewrite Hrow.
    apply Nat.ltb_lt in Hlt. rewrite Hlt. eauto.
Qed.

(** X5.  [set_pixel] keeps the class invariants: the image keeps its
    width and height, stays rectangular, and if every pixel was a colour
    every pixel still is. *)
Theorem Image_set_pixel_invariants (img img' : Image) (x y : Z) (color : Color) :
  Image_rect img = true ->
  Image_set_pixel img x y color = Done img' ->
  Image_width img' = Image_width img /\
  Image_height img' = Image_height img /\
  Image_rect img' = true /\
  (Image_colors img = true -> Image_colors img' = true).
Proof.
  intros Hrect Hset.
  destruct (Image_set_pixel_rect img img' x y color Hrect Hset) as (Hr & Hw & Hh).
  repeat split; try assumption.
  intros Hcol. eapply Image_set_pixel_colors; eassumption.
Qed.

(** X6.  On a rectangular image [pixel] returns a colour exactly when the
    coordinates are inside the image; outside, its assertion fails. *)
Theorem Image_pixel_bounds (img : Image) (x y : Z) :
  Image_rect img = true ->
  ((exists c, Image_pixel img x y = Done c) <->
   (0 <= x < Image_width img)%Z /\ (0 <= y < Image_height img)%Z).
Proof.
  intros Hrect. rewrite <- is_coordinate_bounds. split.
  - intros [c Hpix]. unfold Image_pixel in Hpix.
    apply bind_assert_Done in Hpix as [Hxy _]. exact Hxy.
  - intros Hxy.
    destruct (Image_rect_lookup img x y Hrect Hxy) as (row & c & Hrow & Hc & _).
    exists c. eapply Image_pixel_lookup; eassumption.
Qed.

(** X7.  [discretize] returns exactly for intensities in [0, 1] (its
    assertion fails otherwise), and what it returns is a byte. *)
Theorem Image_discretize_byte_range (intensity : T) :
  (is_color_intensity intensity = true ->
   exists d, Image_discretize intensity = Done d /\ (0 <= d <= 255)%Z) /\
  (is_color_intensity intensity = false -> Image_discretize intensity = Aborted).
Proof.
  split; intros Hint.
  - destruct (Image_discretize_Done intensity Hint) as [d Hd].
    exists d. split; [exact Hd|].
    apply Image_discretize_channel in Hd. subst d. apply channel_range.
  - unfold Image_discretize. rewrite Hint. reflexivity.
Qed.

(** X20.  Writing a pixel twice is writing it once: a [set_pixel] on the
    coordinates that an earlier [set_pixel] wrote gives the image that it
    gives without the earlier one. *)
Theorem Image_set_pixel_overwrite (img img1 : Image) (x y : Z) (c1 c2 : Color) :
  Image_set_pixel img x y c1 = Done img1 ->
  Image_set_pixel img1 x y c2 = Image_set_pixel img x y c2.
Proof.
  intros Hset.
  apply Image_set_pixel_Done_inv in Hset
    as (Hxy & _ & row & Hrow & Hlt & Hpix & Hwidth & Hheight).
  assert (Hcoord : is_coordinate img1 x y = true).
  { apply is_coordinate_bounds. rewrite Hwidth, Hheight.
    apply is_coordinate_bounds. exact Hxy. }
  unfold Image_set_pixel. rewrite Hcoord, Hxy. simpl.
  destruct (is_color c2); [|reflexivity]. simpl.
  rewrite Hpix, Hrow.
  rewrite list_lookup_insert_eq by (eapply lookup_lt_Some; exact Hrow).
  rewrite length_insert.
  apply Nat.ltb_lt in Hlt. rewrite Hlt.
  rewrite !list_insert_insert_eq. reflexivity.
Qed.

End ImageFacts.

(** ** Intersection, rendering and export, for every scalar type *)

(** Every iteration of a loop that returned has returned. *)
Lemma for_each_Done_inv {A S : Type} (xs : list A) (body : A -> S -> checked S)
    (s s' : S) :
  for_each xs body s = Done s' ->
  forall x, In x xs -> exists s1 s2, body x s1 = Done s2.
Proof.
  revert s. induction xs as [|x0 xs IH]; intros s Hrun x Hx; [destruct Hx|].
  simpl in Hrun. apply bind_Done in Hrun as (s1 & H1 & H2).
  destruct Hx as [<-|Hx]; [eauto | eapply IH; eassumption].
Qed.

Lemma for_down_Done_inv {S : Type} (n : nat) (body : Z -> S -> checked S)
    (s s' : S) :
  for_down n body s = Done s' ->
  forall k, (k < n)%nat -> exists s1 s2, body (Z.of_nat k) s1 = Done s2.
Proof.
  revert s. induction n as [|n IH]; intros s Hrun k Hk; [lia|].
  simpl in Hrun. apply bind_Done in Hrun as (s1 & H1 & H2).
  destruct (Nat.eq_dec k n) as [->|Hne]; [eauto|].
  apply (IH s1 H2). lia.
Qed.

Section SceneFacts.

Context {T : Type} `{Scalar T}.
Local Open Scope scalar_scope.

Local Abbreviation Color := (@Color T).
Local Abbreviation Vector4 := (@Vector4 T).
Local Abbreviation Image := (@Image T).
Local Abbreviation Scene := (@Scene T).
Local Abbreviation Basis := (@Basis T).
Local Abbreviation SceneSphere := (@SceneSphere T).
Local Abbreviation Intersection := (@Intersection T).

(** X8.  [SceneSphere::intersect] answers "no hit" exactly when the
    discriminant is negative.  A hit that it returns is built from the
    smaller of the two roots: its t is that root, which the constructor
    has found not negative, its point is origin + direction * t and its
    normal (point - center) * 2. *)
Theorem SceneSphere_intersect_cases (s : SceneSphere)
    (ray_origin ray_direction : Vector4) (disc t0 t1 : T) :
  SceneSphere_roots s ray_origin ray_direction = (disc, t0, t1) ->
  (SceneSphere_intersect s ray_origin ray_direction = Done None <->
   (disc <? of_Z 0) = true) /\
  (forall i,
     SceneSphere_intersect s ray_origin ray_direction = Done (Some i) ->
     let time := if t0 <? t1 then t0 else t1 in
     (disc <? of_Z 0) = false /\
     (of_Z 0 <=? time) = true /\
     i = mkIntersection
           (vadd ray_origin (vscale ray_direction time))
           (vscale (vsub (vadd ray_origin (vscale ray_direction time)) (_center s))
                   (of_Z 2))
           time).
Proof.
  intros Hroots. split; [split|].
  - unfold SceneSphere_intersect. rewrite Hroots.
    destruct (disc <? of_Z 0); [reflexivity|].
    intros Hrun. apply bind_Done in Hrun as (i & _ & Hrun). discriminate.
  - intros Hneg. apply SceneSphere_intersect_miss. rewrite Hroots. exact Hneg.
  - intros i Hhit time.
    destruct (SceneSphere_intersect_hit s _ _ i disc t0 t1 Hroots Hhit)
      as (Hdisc & Ht & Hpos).
    destruct (SceneSphere_intersect_point_normal_parts s _ _ i Hhit) as (Hp & Hn).
    fold time in Ht. rewrite Ht in Hpos, Hp. rewrite Hp in Hn.
    repeat split; try assumption.
    destruct i as [p n t]. simpl in *. subst. reflexivity.
Qed.

(** X9.  [render] aborts for a width or height that is not positive.  An
    image that it returns has the width and the height asked for, and all
    its rows have that width. *)
Theorem render_size (this : Scene) (axes : Basis) (width height : Z) :
  ((width <= 0)%Z \/ (height <= 0)%Z -> render this axes width height = Aborted) /\
  (forall image,
     render this axes width height = Done image ->
     Image_width image = width /\ Image_height image = height /\
     Image_rect image = true).
Proof.
  split.
  - unfold render. intros [Hw | Hh].
    + replace (0 <? width)%Z with false by (symmetry; apply Z.ltb_ge; lia).
      reflexivity.
    + destruct (0 <? width)%Z; [|reflexivity].
      replace (0 <? height)%Z with false by (symmetry; apply Z.ltb_ge; lia).
      reflexivity.
  - intros image Hrun.
    pose proof (render_filled this axes width height image Hrun) as ->.
    unfold render in Hrun.
    apply bind_assert_Done in Hrun as [Hw Hrun].
    apply bind_assert_Done in Hrun as [Hh Hrun].
    apply bind_Done in Hrun as (image0 & Hnew & _).
    destruct (new_Image_rect _ _ _ _ Hnew) as (-> & Hrect & Hwidth & Hheight).
    auto.
Qed.

Lemma Image_discretize_intensity (x : T) (d : Z) :
  Image_discretize x = Done d -> is_color_intensity x = true.
Proof.
  unfold Image_discretize. intros Hd.
  apply bind_assert_Done in Hd as [Hx _]. exact Hx.
Qed.

Lemma write_ppm_pixel_color (this : Image) (y x : Z) (f f' : ofstream) :
  write_ppm_pixel this y x f = Done f' ->
  exists c, Image_pixel this x y = Done c /\ is_color c = true.
Proof.
  unfold write_ppm_pixel. intros Hrun.
  apply bind_Done in Hrun as (c & Hpix & Hrun).
  apply bind_Done in Hrun as (r & Hr & Hrun).
  apply bind_Done in Hrun as (g & Hg & Hrun).
  apply bind_Done in Hrun as (b & Hb & _).
  exists c. split; [exact Hpix|].
  unfold is_color.
  rewrite (Image_discretize_intensity _ _ Hr), (Image_discretize_intensity _ _ Hg),
    (Image_discretize_intensity _ _ Hb).
  reflexivity.
Qed.

(** X11.  Once the file is open, [write_ppm] on a rectangular image
    returns a status exactly when every pixel of the image is a colour: a
    channel outside [0, 1] fails the assertion of [discretize]. *)
Theorem write_ppm_needs_colors (this : Image) (path : string) (fs : FileSystem) :
  Image_rect this = true ->
  f_writable (fs path) = true ->
  ((exists r, Image_write_ppm this path fs = Done r) <-> Image_colors this = true).
Proof.
  intros Hrect Hopen. split.
  - intros [r Hrun]. unfold Image_write_ppm in Hrun.
    change (os_good (open fs path)) with (f_writable (fs path)) in Hrun.
    rewrite Hopen in Hrun. simpl negb in Hrun. cbv iota in Hrun.
    apply bind_Done in Hrun as (f' & Hloop & _).
    unfold Image_colors. apply forallb_Forall, Forall_lookup.
    intros k row Hrow. apply forallb_Forall, Forall_lookup. intros n c Hc.
    assert (Hk : (k < Z.to_nat (Image_height this))%nat).
    { unfold Image_height. rewrite Nat2Z.id. eapply lookup_lt_Some. exact Hrow. }
    destruct (for_down_Done_inv _ _ _ _ Hloop k Hk) as (f1 & f2 & Hbody).
    unfold write_ppm_row in Hbody.
    apply bind_Done in Hbody as (f3 & Hcols & _).
    pose proof (Image_rect_width this k row Hrect Hrow) as Hwidth.
    assert (Hn : In (Z.of_nat n) (seqZ 0 (Image_width this))).
    { apply list_elem_of_In, elem_of_seqZ.
      pose proof (lookup_lt_Some _ _ _ Hc). lia. }
    destruct (for_each_Done_inv _ _ _ _ Hcols _ Hn) as (f4 & f5 & Hpixel).
    apply write_ppm_pixel_color in Hpixel as (c' & Hpix & Hcol).
    unfold Image_pixel in Hpix. apply bind_assert_Done in Hpix as [_ Hpix].
    rewrite !Nat2Z.id, Hrow, Hc in Hpix. injection Hpix as <-. exact Hcol.
  - intros Hcol.
    destruct (Image_write_ppm_Done this path fs Hrect Hcol) as (ok & fs' & Hrun).
    eauto.
Qed.

End SceneFacts.

(** ** binary64: web colours, and the properties above on concrete inputs *)

Section Binary64Extras.

Local Open Scope float_scope.

(** A 24-bit value is made of the three bytes that [web_color] takes. *)
Lemma hex_of_bytes (hex : Z) :
  (0 <= hex)%Z ->
  hex = (65536 * Z.shiftr hex 16 + 256 * Z.land (Z.shiftr hex 8) 0xFF
         + Z.land hex 0xFF)%Z.
Proof.
  intros Hhex. change 0xFF%Z with (Z.ones 8).
  rewrite !Z.land_ones, !Z.shiftr_div_pow2 by lia.
  change (2 ^ 16)%Z with (256 * 256)%Z. change (2 ^ 8)%Z with 256%Z.
  rewrite <- Z.div_div by lia.
  pose proof (Z.div_mod hex 256 ltac:(lia)) as H1.
  pose proof (Z.div_mod (hex / 256) 256 ltac:(lia)) as H2.
  lia.
Qed.

Lemma web_color_value (hex : Z) :
  (0 <= hex <= 0xFFFFFF)%Z ->
  @web_color float _ hex =
  Done (vector3 (of_Z (Z.shiftr hex 16) / of_Z 255)%S
                (of_Z (Z.land (Z.shiftr hex 8) 0xFF) / of_Z 255)%S
                (of_Z (Z.land hex 0xFF) / of_Z 255)%S).
Proof.
  intros Hhex. destruct (web_color_bytes hex Hhex) as (Hr & Hg & Hb).
  destruct (byte_round_trip_ok _ Hr) as [Hri _].
  destruct (byte_round_trip_ok _ Hg) as [Hgi _].
  destruct (byte_round_trip_ok _ Hb) as [Hbi _].
  unfold web_color.
  replace (hex <=? 0xFFFFFF)%Z with true by (symmetry; apply Z.leb_le; lia).
  cbv beta iota delta [assert bind].
  unfold is_color. cbv beta iota delta [v3_0 v3_1 v3_2].
  rewrite Hri, Hgi, Hbi. reflexivity.
Qed.

(** In binary64 the quotient [b / 255.0] determines the byte [b]. *)
Lemma byte_quotient_inj (b1 b2 : Z) :
  (0 <= b1 < 256)%Z -> (0 <= b2 < 256)%Z ->
  (of_Z b1 / of_Z 255)%S = (of_Z b2 / of_Z 255 : float)%S -> b1 = b2.
Proof.
  intros H1 H2 Heq.
  destruct (byte_round_trip_ok b1 H1) as [_ Hr1].
  destruct (byte_round_trip_ok b2 H2) as [_ Hr2].
  rewrite <- Hr1, <- Hr2, Heq. reflexivity.
Qed.

(** X12.  [web_color] aborts above 0xFFFFFF, and on the 24-bit values it
    is one to one: two web colours that differ give two colours that
    differ. *)
Theorem web_color_injective (hex1 hex2 : Z) :
  ((0xFFFFFF < hex1)%Z -> @web_color float _ hex1 = Aborted) /\
  ((0 <= hex1 <= 0xFFFFFF)%Z -> (0 <= hex2 <= 0xFFFFFF)%Z ->
   @web_color float _ hex1 = web_color hex2 -> hex1 = hex2).
Proof.
  split.
  - intros Hbig. unfold web_color.
    replace (hex1 <=? 0xFFFFFF)%Z with false by (symmetry; apply Z.leb_gt; lia).
    reflexivity.
  - intros H1 H2 Heq.
    rewrite (web_color_value hex1 H1), (web_color_value hex2 H2) in Heq.
    injection Heq as Hr Hg Hb.
    destruct (web_color_bytes hex1 H1) as (Hr1 & Hg1 & Hb1).
    destruct (web_color_bytes hex2 H2) as (Hr2 & Hg2 & Hb2).
    apply byte_quotient_inj in Hr, Hg, Hb; try assumption.
    rewrite (hex_of_bytes hex1), (hex_of_bytes hex2) by lia.
    rewrite Hr, Hg, Hb. reflexivity.
Qed.

Lemma web_color_injective_witness :
  @web_color float _ 0x1000000 = Aborted /\
  (@web_color float _ 0xFF8000 = web_color 0xFF8000 -> 0xFF8000 = 0xFF8000)%Z.
Proof.
  split.
  - apply (proj1 (web_color_injective 0x1000000 0)). lia.
  - apply (proj2 (web_color_injective 0xFF8000 0xFF8000)); lia.
Defined.

Lemma new_Image_filled_witness :
  new_Image 0 3 Demo.red = Aborted /\
  exists img,
    new_Image 2 3 Demo.red = Done img /\
    Image_width img = 2%Z /\ Image_height img = 3%Z /\
    Image_rect img = true /\
    forall x y, (0 <= x < 2)%Z -> (0 <= y < 3)%Z ->
      Image_pixel img x y = Done Demo.red.
Proof.
  split.
  - apply (proj1 (new_Image_filled 0 3 Demo.red)). left. lia.
  - apply (proj2 (new_Image_filled 2 3 Demo.red)); lia.
Defined.

Lemma Image_pixel_set_pixel_witness :
  Image_pixel (mkImage [[Demo.black; Demo.white]; [Demo.white; vector3 0.5 0.25 1]])
              1 0 = Done Demo.white.
Proof.
  apply (Image_pixel_set_pixel Demo.picture _ 1 0 Demo.white).
  vm_compute. reflexivity.
Defined.

Lemma Image_pixel_set_pixel_other_witness :
  Image_pixel (mkImage [[Demo.black; Demo.white]; [Demo.white; vector3 0.5 0.25 1]])
              0 0 = Image_pixel Demo.picture 0 0.
Proof.
  apply (Image_pixel_set_pixel_other Demo.picture _ 1 0 0 0 Demo.white).
  - vm_compute. reflexivity.
  - intros Heq. discriminate Heq.
Defined.

Lemma Image_set_pixel_accepts_witness :
  (exists img', Image_set_pixel Demo.picture 1 1 Demo.red = Done img') <->
  (0 <= 1 < Image_width Demo.picture)%Z /\ (0 <= 1 < Image_height Demo.picture)%Z /\
  is_color Demo.red = true.
Proof.
  apply (Image_set_pixel_accepts Demo.picture 1 1 Demo.red). reflexivity.
Defined.

Lemma Image_set_pixel_invariants_witness :
  Image_width (mkImage [[Demo.black; Demo.white]; [Demo.white; vector3 0.5 0.25 1]])
    = Image_width Demo.picture /\
  Image_height (mkImage [[Demo.black; Demo.white]; [Demo.white; vector3 0.5 0.25 1]])
    = Image_height Demo.picture /\
  Image_rect (mkImage [[Demo.black; Demo.white]; [Demo.white; vector3 0.5 0.25 1]])
    = true /\
  (Image_colors Demo.picture = true ->
   Image_colors (mkImage [[Demo.black; Demo.white]; [Demo.white; vector3 0.5 0.25 1]])
     = true).
Proof.
  apply (Image_set_pixel_invariants Demo.picture _ 1 0 Demo.white).
  - reflexivity.
  - vm_compute. reflexivity.
Defined.

Lemma Image_pixel_bounds_witness :
  (exists c, Image_pixel Demo.picture 2 0 = Done c) <->
  (0 <= 2 < Image_width Demo.picture)%Z /\ (0 <= 0 < Image_height Demo.picture)%Z.
Proof. apply (Image_pixel_bounds Demo.picture 2 0). reflexivity. Defined.

Lemma Image_discretize_byte_range_witness :
  (exists d, Image_discretize 0.5 = Done d /\ (0 <= d <= 255)%Z) /\
  Image_discretize 1.5 = Aborted.
Proof.
  split.
  - apply (proj1 (Image_discretize_byte_range 0.5)). reflexivity.
  - apply (proj2 (Image_discretize_byte_range 1.5)). reflexivity.
Defined.

Lemma SceneSphere_intersect_cases_witness :
  (SceneSphere_intersect Demo.ball Demo.eye Demo.forward = Done None <->
   (4 <? of_Z 0)%S = true) /\
  (forall i,
     SceneSphere_intersect Demo.ball Demo.eye Demo.forward = Done (Some i) ->
     let time := if (6 <? 4)%S then 6 else 4 in
     (4 <? of_Z 0)%S = false /\
     (of_Z 0 <=? time)%S = true /\
     i = mkIntersection
           (vadd Demo.eye (vscale Demo.forward time))
           (vscale (vsub (vadd Demo.eye (vscale Demo.forward time)) (_center Demo.ball))
                   (of_Z 2))
           time).
Proof.
  apply (SceneSphere_intersect_cases Demo.ball Demo.eye Demo.forward 4 6 4).
  vm_compute. reflexivity.
Defined.

Lemma render_size_witness :
  render Demo.scene Demo.axes 0 1 = Aborted /\
  (forall image,
     render Demo.scene Demo.axes 1 1 = Done image ->
     Image_width image = 1%Z /\ Image_height image = 1%Z /\
     Image_rect image = true).
Proof.
  split.
  - apply (proj1 (render_size Demo.scene Demo.axes 0 1)). left. lia.
  - apply (proj2 (render_size Demo.scene Demo.axes 1 1)).
Defined.

Lemma write_ppm_needs_colors_witness :
  (exists r, Image_write_ppm (mkImage [[vector3 2 0 0]]) "out.ppm"
               (Demo.disk true 100) = Done r) <->
  Image_colors (mkImage [[vector3 2 0 0]]) = true.
Proof.
  apply (write_ppm_needs_colors (mkImage [[vector3 2 0 0]]) "out.ppm"
           (Demo.disk true 100)); reflexivity.
Defined.

Lemma Image_set_pixel_overwrite_witness :
  Image_set_pixel
    (mkImage [[Demo.black; Demo.white]; [Demo.white; vector3 0.5 0.25 1]])
    1 0 Demo.red
  = Image_set_pixel Demo.picture 1 0 Demo.red.
Proof.
  apply (Image_set_pixel_overwrite Demo.picture _ 1 0 Demo.white Demo.red).
  vm_compute. reflexivity.
Defined.

End Binary64Extras.

